(** * alertify-vision: face recognition service and detection component

    A shallow embedding of
      - [src/services/faceRecognition.ts] (reference loading, recognition),
      - [src/data/knownFaces.ts] (the reference identity table),
      - the [ObjectDetection] component (detection cycle, alerts, history),
      - the two older snapshots of the service and of the component.

    JavaScript numbers are read as exact rationals ([Q]); [Date.now()] is an
    integer number of milliseconds ([Z]).  Calls into the browser and into
    face-api.js are inputs of the model: what a call returned (or that it
    threw) is an argument of the function that awaits it.  Side effects
    (canvas drawing, speech, toasts, console) are appended to explicit
    logs. *)

From Stdlib Require Import List String Bool ZArith QArith Qabs Lia Lqa.
From Stdlib Require Import DecimalString Qround.
Import ListNotations.
Local Open Scope string_scope.
Local Open Scope list_scope.
Local Open Scope Q_scope.

(** Template-literal concatenation. *)
Local Infix "+++" := String.append (at level 60, right associativity).

(** ** Numbers *)

(** [a < b] on JavaScript numbers. *)
Definition Qlt_bool (a b : Q) : bool := negb (Qle_bool b a).

(** Truthiness of a number: [0] is falsy. *)
Definition truthy (a : Q) : bool := negb (Qeq_bool a 0).

(** ** Data model (faceRecognition.ts, knownFaces.ts) *)

Inductive Category : Type := user | celebrity | unknown.

Definition Category_eqb (a b : Category) : bool :=
  match a, b with
  | user, user | celebrity, celebrity | unknown, unknown => true
  | _, _ => false
  end.

Record Box : Type := mkBox { x : Q; y : Q; width : Q; height : Q }.

(** [interface RecognizedFace]; [score] is the optional field. *)
Record RecognizedFace : Type := mkFace {
  id : string;
  name : string;
  category : Category;
  box : Box;
  score : option Q
}.

(** [interface KnownFace]; its category is ['user' | 'celebrity']. *)
Inductive KnownCategory : Type := kc_user | kc_celebrity.

Definition category_of (c : KnownCategory) : Category :=
  match c with kc_user => user | kc_celebrity => celebrity end.

Record KnownFace : Type := mkKnown {
  kf_id : string;
  kf_name : string;
  kf_imageUrl : string;
  kf_category : KnownCategory
}.

Definition knownFaces : list KnownFace :=
  [ mkKnown "ashal" "ASHAL"
      "/lovable-uploads/220e9480-454a-42c0-910b-d83696066ac6.png" kc_user;
    mkKnown "tom-cruise" "Tom Cruise"
      "https://upload.wikimedia.org/wikipedia/commons/3/33/Tom_Cruise_by_Gage_Skidmore_2.jpg"
      kc_celebrity;
    mkKnown "taylor-swift" "Taylor Swift"
      "https://upload.wikimedia.org/wikipedia/commons/b/b5/191125_Taylor_Swift_at_the_2019_American_Music_Awards_%28cropped%29.png"
      kc_celebrity;
    mkKnown "leonardo-dicaprio" "Leonardo DiCaprio"
      "https://upload.wikimedia.org/wikipedia/commons/4/46/Leonardo_Dicaprio_Cannes_2019.jpg"
      kc_celebrity;
    mkKnown "beyonce" "Beyonc√©"
      "https://upload.wikimedia.org/wikipedia/commons/1/17/Beyonc%C3%A9_at_The_Lion_King_European_Premiere_2019.png"
      kc_celebrity ].

(** A face descriptor: the [Float32Array] the recognition net returns. *)
Definition Descriptor : Type := list Q.

(** [new faceapi.LabeledFaceDescriptors(face.id, [descriptor])]: the service
    always stores exactly one descriptor per label. *)
Record LabeledFaceDescriptors : Type := mkLabeled {
  label : string;
  descriptor : Descriptor
}.

(** [faceapi.FaceMatcher]: the labeled descriptors in load order and the
    distance threshold. *)
Record FaceMatcher : Type := mkMatcher {
  labeledDescriptors : list LabeledFaceDescriptors;
  distanceThreshold : Q
}.

(** [faceapi.FaceMatch]. *)
Record FaceMatch : Type := mkMatch {
  fm_label : string;
  fm_distance : Q
}.

(** Console output of the service. *)
Inductive LogEntry : Type :=
| ConsoleLog (msg : string)
| ConsoleWarn (msg : string)
| ConsoleError (msg : string).

(** ** The matcher and the service *)

(** What processing one reference image did: [fetchImage] or the detection
    chain threw, [detectSingleFace] found no face, or a descriptor came
    back. *)
Inductive RefOutcome : Type :=
| RefThrew
| RefNoFace
| RefFace (d : Descriptor).

(** The body of the [for (const face of knownFaces)] loop of
    [loadReferenceFaces]: one reference identity, with its own try/catch.
    The accumulator is [labeledDescriptors] (pushed at the end) and the
    console. *)
Definition loadOne (probe : KnownFace -> RefOutcome)
  (acc : list LabeledFaceDescriptors * list LogEntry) (face : KnownFace)
  : list LabeledFaceDescriptors * list LogEntry :=
  let (lds, logs) := acc in
  match probe face with
  | RefFace d =>
      (lds ++ [mkLabeled (kf_id face) d],
       logs ++ [ConsoleLog ("Successfully loaded face data for: " +++ kf_name face)])
  | RefNoFace =>
      (lds,
       logs ++ [ConsoleWarn ("No face detected in reference image for: " +++ kf_name face)])
  | RefThrew =>
      (lds,
       logs ++ [ConsoleError ("Error processing reference face for " +++ kf_name face +++ ":")])
  end.

Definition loadAll (probe : KnownFace -> RefOutcome) (faces : list KnownFace)
  : list LabeledFaceDescriptors * list LogEntry :=
  fold_left (loadOne probe) faces ([], []).

(** Result of [loadReferenceFaces]: the returned boolean, the module-level
    [faceMatcher] after the call, and the console. *)
Record LoadResult : Type := mkLoad {
  lr_ok : bool;
  lr_matcher : option FaceMatcher;
  lr_console : list LogEntry
}.

(** [loadReferenceFaces] of faceRecognition.ts over a reference table
    [faces]; [faceMatcher] is the module variable before the call. *)
Definition loadReferenceFaces (faces : list KnownFace)
  (probe : KnownFace -> RefOutcome) (faceMatcher : option FaceMatcher)
  : LoadResult :=
  let (lds, logs) := loadAll probe faces in
  match lds with
  | [] =>
      mkLoad false faceMatcher
        (logs ++ [ConsoleWarn "No reference faces could be loaded. Face recognition will be limited to detection only."])
  | _ :: _ => mkLoad true (Some (mkMatcher lds (6 # 10))) logs
  end.

(** What the detector saw in a frame.  [det_stamp] stands for the
    [${Date.now()}-${Math.random()...}] suffix used for ids of unknown
    faces. *)
Record Detection : Type := mkDet {
  det_box : Box;
  det_stamp : string
}.

Record DetectionWithDescriptor : Type := mkDetD {
  dd_box : Box;
  dd_descriptor : Descriptor;
  dd_stamp : string
}.

Inductive Outcome (A : Type) : Type :=
| Returned (a : A)
| Threw.
Arguments Returned {A} a.
Arguments Threw {A}.

(** The two detector calls of [recognizeFaces] on one frame: the plain
    [detectAllFaces] and the chain with landmarks and descriptors. *)
Record Frame : Type := mkFrame {
  fr_basic : Outcome (list Detection);
  fr_full : Outcome (list DetectionWithDescriptor)
}.

Definition copyBox (b : Box) : Box :=
  mkBox (x b) (y b) (width b) (height b).

(** The fallback entry: "Face Detected", no [score] field. *)
Definition basicFace (d : Detection) : RecognizedFace :=
  mkFace ("unknown-" +++ det_stamp d) "Face Detected" unknown
    (copyBox (det_box d)) None.

(** [knownFaces.find(face => face.id === match.label)]. *)
Definition findKnown (faces : list KnownFace) (l : string) : option KnownFace :=
  find (fun face => String.eqb (kf_id face) l) faces.

(** The callback of [detectionsWithDescriptors.map] once the best match is
    known. *)
Definition faceOfMatch (faces : list KnownFace) (d : DetectionWithDescriptor)
  (m : FaceMatch) : RecognizedFace :=
  match findKnown faces (fm_label m) with
  | Some knownFace =>
      if negb (String.eqb (fm_label m) "unknown") then
        mkFace (kf_id knownFace) (kf_name knownFace)
          (category_of (kf_category knownFace))
          (copyBox (dd_box d)) (Some (1 - fm_distance m))
      else
        mkFace ("unknown-" +++ dd_stamp d) "Unknown" unknown
          (copyBox (dd_box d)) (Some (1 - fm_distance m))
  | None =>
      mkFace ("unknown-" +++ dd_stamp d) "Unknown" unknown
        (copyBox (dd_box d)) (Some (1 - fm_distance m))
  end.

Section Service.

(** The descriptor distance of face-api.js ([euclideanDistance]); the
    library is not part of the repository, so the distance is a parameter. *)
Variable euclideanDistance : Descriptor -> Descriptor -> Q.

(** Modelled from the spec: the scan of [FaceMatcher] over the labeled
    descriptors (face-api.js, not in the repository).  The spec: "compute
    distance to every labeled descriptor, return the label with minimum
    distance"; "Tie-break: first label achieving the minimum (stable order =
    load order)".  [best] is the best match among the entries already seen;
    a later entry replaces it only when strictly closer. *)
Fixpoint matchDescriptor (best : FaceMatch)
  (rest : list LabeledFaceDescriptors) (query : Descriptor) : FaceMatch :=
  match rest with
  | [] => best
  | ld :: tl =>
      let curr := mkMatch (label ld) (euclideanDistance query (descriptor ld)) in
      matchDescriptor
        (if Qlt_bool (fm_distance curr) (fm_distance best) then curr else best)
        tl query
  end.

(** Modelled from the spec: [FaceMatcher.findBestMatch] (face-api.js, not in
    the repository).  The spec: "return the label with minimum distance if
    that minimum is below threshold, else return "unknown" together with
    that minimum distance".  The spec speaks of a non-empty descriptor set
    only; on an empty one there is no match to return ([None]). *)
Definition findBestMatch (m : FaceMatcher) (query : Descriptor)
  : option FaceMatch :=
  match labeledDescriptors m with
  | [] => None
  | ld :: tl =>
      let bestMatch :=
        matchDescriptor
          (mkMatch (label ld) (euclideanDistance query (descriptor ld)))
          tl query in
      Some (if Qlt_bool (fm_distance bestMatch) (distanceThreshold m)
            then bestMatch
            else mkMatch "unknown" (fm_distance bestMatch))
  end.

(** The [map] over the detections; [None] when a [findBestMatch] call has
    no result, which aborts the [map]. *)
Fixpoint matchAll (faces : list KnownFace) (m : FaceMatcher)
  (ds : list DetectionWithDescriptor) : option (list RecognizedFace) :=
  match ds with
  | [] => Some []
  | d :: tl =>
      match findBestMatch m (dd_descriptor d), matchAll faces m tl with
      | Some bm, Some fs => Some (faceOfMatch faces d bm :: fs)
      | _, _ => None
      end
  end.

(** [recognizeFaces] of faceRecognition.ts (current service). *)
Definition recognizeFaces (faces : list KnownFace)
  (faceMatcher : option FaceMatcher) (frame : Frame) : list RecognizedFace :=
  match fr_basic frame with
  | Threw => []
  | Returned detections =>
      match faceMatcher with
      | None => map basicFace detections
      | Some m =>
          match fr_full frame with
          | Threw => map basicFace detections
          | Returned detectionsWithDescriptors =>
              match matchAll faces m detectionsWithDescriptors with
              | Some fs => fs
              | None => map basicFace detections
              end
          end
      end
  end.

(** [recognizeFaces] of the older snapshot of the service: no matcher, no
    faces; any failure gives the empty list. *)
Definition recognizeFaces_old (faces : list KnownFace)
  (faceMatcher : option FaceMatcher) (frame : Frame) : list RecognizedFace :=
  match faceMatcher with
  | None => []
  | Some m =>
      match fr_full frame with
      | Threw => []
      | Returned detections =>
          match matchAll faces m detections with
          | Some fs => fs
          | None => []
          end
      end
  end.

(** The distance the matcher computes for a stored entry. *)
Definition distanceTo (query : Descriptor) (e : LabeledFaceDescriptors) : Q :=
  euclideanDistance query (descriptor e).

(** The match recorded for a stored entry. *)
Definition matchOf (query : Descriptor) (e : LabeledFaceDescriptors) : FaceMatch :=
  mkMatch (label e) (distanceTo query e).

(** [e] is the first entry of [lds], in load order, at minimal distance
    from [query]: [lds] is [pre], then [e], then [post]; everything in [pre]
    is strictly farther and nothing in [post] is closer. *)
Definition firstNearest (query : Descriptor) (lds : list LabeledFaceDescriptors)
  (pre : list LabeledFaceDescriptors) (e : LabeledFaceDescriptors)
  (post : list LabeledFaceDescriptors) : Prop :=
  lds = pre ++ e :: post /\
  Forall (fun o => distanceTo query e < distanceTo query o) pre /\
  Forall (fun o => distanceTo query e <= distanceTo query o) post.

(** [face] is what the [map] callback of [recognizeFaces] makes of the
    detection [d]: its score is one minus the distance of the best match;
    a category other than unknown comes with a distance below the
    threshold, and a distance of one or more with the name "Unknown". *)
Definition scoredByMatch (m : FaceMatcher) (d : DetectionWithDescriptor)
  (face : RecognizedFace) : Prop :=
  exists bm,
    findBestMatch m (dd_descriptor d) = Some bm /\
    score face = Some (1 - fm_distance bm) /\
    (category face <> unknown ->
       fm_distance bm < (6 # 10) /\ (4 # 10) <= 1 - fm_distance bm) /\
    (1 <= fm_distance bm ->
       name face = "Unknown" /\ category face = unknown /\
       1 - fm_distance bm <= 0).

End Service.

(** ** The component (face-api variant of [ObjectDetection])

    The hooks and refs of the component are the fields of one record.  The
    functions below take that record and read a state variable from it; a
    function that runs long after the render that made it (the callback of
    the timer, the code behind an [await]) is given the state variables of
    that render with it, see [Render]. *)

(** [lastSpokenRef.current]. *)
Record LastSpoken : Type := mkSpoken {
  ls_label : string;
  ls_time : Z
}.

Inductive Toast : Type :=
| ToastInfo (msg : string)
| ToastSuccess (msg : string)
| ToastError (msg : string).

(** What the component does to the outside, in order. *)
Inductive Effect : Type :=
| DrawFrame                                  (* clearRect + drawImage of detectFaces *)
| DrawFaces (faces : list RecognizedFace)    (* drawFaces(ctx, faces) *)
| Speak (text : string)                      (* synth.speak(utterance) *)
| ShowToast (t : Toast)
| StopTracks                                 (* tracks.forEach(track => track.stop()) *)
| ClearInterval (handle : nat).

(** The state hooks and refs of the component, the DOM handles it tests for
    null, and the log of its effects. *)
Record Component : Type := mkComponent {
  detections : list RecognizedFace;
  isStarted : bool;
  isMuted : bool;
  isModelLoading : bool;
  confidence : Q;
  faceHistory : list string;
  detectionIntervalRef : option nat;
  lastSpokenRef : LastSpoken;
  videoRef : bool;          (* videoRef.current is not null *)
  canvasRef : bool;         (* canvasRef.current is not null *)
  srcObject : bool;         (* videoRef.current.srcObject is set *)
  context2d : bool;         (* canvas.getContext('2d') is not null *)
  effects : list Effect
}.

Definition initialComponent : Component :=
  mkComponent [] false false false (1 # 2) [] None (mkSpoken EmptyString 0)
    true true false true [].

Definition setDetections (v : list RecognizedFace) (c : Component) : Component :=
  mkComponent v (isStarted c) (isMuted c) (isModelLoading c) (confidence c)
    (faceHistory c) (detectionIntervalRef c) (lastSpokenRef c)
    (videoRef c) (canvasRef c) (srcObject c) (context2d c) (effects c).

Definition setIsStarted (v : bool) (c : Component) : Component :=
  mkComponent (detections c) v (isMuted c) (isModelLoading c) (confidence c)
    (faceHistory c) (detectionIntervalRef c) (lastSpokenRef c)
    (videoRef c) (canvasRef c) (srcObject c) (context2d c) (effects c).

Definition setIsMuted (f : bool -> bool) (c : Component) : Component :=
  mkComponent (detections c) (isStarted c) (f (isMuted c)) (isModelLoading c)
    (confidence c) (faceHistory c) (detectionIntervalRef c) (lastSpokenRef c)
    (videoRef c) (canvasRef c) (srcObject c) (context2d c) (effects c).

Definition setIsModelLoading (v : bool) (c : Component) : Component :=
  mkComponent (detections c) (isStarted c) (isMuted c) v (confidence c)
    (faceHistory c) (detectionIntervalRef c) (lastSpokenRef c)
    (videoRef c) (canvasRef c) (srcObject c) (context2d c) (effects c).

Definition setConfidence (v : Q) (c : Component) : Component :=
  mkComponent (detections c) (isStarted c) (isMuted c) (isModelLoading c) v
    (faceHistory c) (detectionIntervalRef c) (lastSpokenRef c)
    (videoRef c) (canvasRef c) (srcObject c) (context2d c) (effects c).

Definition setFaceHistory (f : list string -> list string) (c : Component)
  : Component :=
  mkComponent (detections c) (isStarted c) (isMuted c) (isModelLoading c)
    (confidence c) (f (faceHistory c)) (detectionIntervalRef c)
    (lastSpokenRef c) (videoRef c) (canvasRef c) (srcObject c) (context2d c)
    (effects c).

Definition setIntervalRef (v : option nat) (c : Component) : Component :=
  mkComponent (detections c) (isStarted c) (isMuted c) (isModelLoading c)
    (confidence c) (faceHistory c) v (lastSpokenRef c)
    (videoRef c) (canvasRef c) (srcObject c) (context2d c) (effects c).

Definition setLastSpoken (v : LastSpoken) (c : Component) : Component :=
  mkComponent (detections c) (isStarted c) (isMuted c) (isModelLoading c)
    (confidence c) (faceHistory c) (detectionIntervalRef c) v
    (videoRef c) (canvasRef c) (srcObject c) (context2d c) (effects c).

Definition setSrcObject (v : bool) (c : Component) : Component :=
  mkComponent (detections c) (isStarted c) (isMuted c) (isModelLoading c)
    (confidence c) (faceHistory c) (detectionIntervalRef c) (lastSpokenRef c)
    (videoRef c) (canvasRef c) v (context2d c) (effects c).

Definition emit (es : list Effect) (c : Component) : Component :=
  mkComponent (detections c) (isStarted c) (isMuted c) (isModelLoading c)
    (confidence c) (faceHistory c) (detectionIntervalRef c) (lastSpokenRef c)
    (videoRef c) (canvasRef c) (srcObject c) (context2d c) (effects c ++ es).

(** The clean-up of the timer shared by [stopCamera], [startDetectionLoop]
    and the unmount handler: [if (ref.current) clearInterval(ref.current)]. *)
Definition clearDetectionInterval (c : Component) : Component :=
  match detectionIntervalRef c with
  | Some h => emit [ClearInterval h] c
  | None => c
  end.

(** [stopCamera]. *)
Definition stopCamera (c : Component) : Component :=
  let c1 :=
    if videoRef c && srcObject c
    then setSrcObject false (emit [StopTracks] c)
    else c in
  let c2 := setIntervalRef None (clearDetectionInterval c1) in
  emit [ShowToast (ToastInfo "Camera stopped")]
    (setDetections [] (setIsStarted false c2)).

(** [startDetectionLoop]; [handle] is what [window.setInterval] returns. *)
Definition startDetectionLoop (handle : nat) (c : Component) : Component :=
  setIntervalRef (Some handle) (clearDetectionInterval c).

(** [startCamera] from the point where [await getUserMedia(constraints)]
    settles up to [await videoRef.current.play()].  [granted] tells whether
    the promise resolved (otherwise the [catch] runs); the boolean of the
    result tells whether the call now awaits [play()].  The stream is
    attached before [play()] is awaited. *)
Definition startCamera_stream (granted : bool) (c : Component)
  : Component * bool :=
  if granted then
    if videoRef c then (setSrcObject true c, true)
    else (c, false)
  else
    (emit [ShowToast (ToastError "Failed to access camera. Please check permissions.")] c,
     false).

(** [startCamera] from the point where [await videoRef.current.play()]
    settles; [played] tells whether it resolved (otherwise the [catch]
    runs, and the stream stays attached).  The canvas is given the size of
    the video, which the record does not hold. *)
Definition startCamera_play (played : bool) (handle : nat) (c : Component)
  : Component :=
  if played then
    startDetectionLoop handle
      (emit [ShowToast (ToastSuccess "Camera started successfully!")]
         (setIsStarted true c))
  else
    emit [ShowToast (ToastError "Failed to access camera. Please check permissions.")] c.

(** A call of [startCamera] that nothing else runs in between. *)
Definition startCamera (granted played : bool) (handle : nat) (c : Component)
  : Component :=
  let (c1, awaitsPlay) := startCamera_stream granted c in
  if awaitsPlay then startCamera_play played handle c1 else c1.

(** The filter of [detectFaces]:
    [face => face.score && face.score > confidence]. *)
Definition passesConfidence (confidence : Q) (face : RecognizedFace) : bool :=
  match score face with
  | None => false
  | Some s => truthy s && Qlt_bool confidence s
  end.

Definition filterFaces (confidence : Q) (recognizedFaces : list RecognizedFace)
  : list RecognizedFace :=
  filter (passesConfidence confidence) recognizedFaces.

(** [drawFaces(ctx, faces)]: a full repaint with the given faces. *)
Definition drawFaces (faces : list RecognizedFace) (c : Component) : Component :=
  emit [DrawFaces faces] c.

(** The text of the utterance for one face. *)
Definition utteranceText (face : RecognizedFace) : string :=
  if String.eqb (name face) "ASHAL" then "Hello ASHAL, welcome back!"
  else if Category_eqb (category face) celebrity
       then "Celebrity detected: " +++ name face
       else "Unknown person detected".

(** The body of [faces.forEach] in [handleAudioAlerts]. *)
Definition alertFace (now : Z) (c : Component) (face : RecognizedFace)
  : Component :=
  if String.eqb (ls_label (lastSpokenRef c)) (name face)
     && (now - ls_time (lastSpokenRef c) <? 5000)%Z
  then c
  else setLastSpoken (mkSpoken (name face) now)
         (emit [Speak (utteranceText face)] c).

(** [handleAudioAlerts(faces)]; [now] is its [Date.now()]. *)
Definition handleAudioAlerts (now : Z) (faces : list RecognizedFace)
  (c : Component) : Component :=
  if isMuted c || Nat.eqb (List.length faces) 0 then c
  else fold_left (alertFace now) faces c.

(** One history line: [`${face.name} detected at ${timestamp}`]. *)
Definition historyEntry (timestamp : string) (face : RecognizedFace) : string :=
  name face +++ " detected at " +++ timestamp.

(** What a render hands to the functions it makes: the state variables
    [detectFaces] and [handleAudioAlerts] read.  A function keeps the
    values of the render that made it for as long as it is referred to. *)
Record Render : Type := mkRender {
  seenStarted : bool;
  seenMuted : bool;
  seenConfidence : Q
}.

(** The render of the component as it is now. *)
Definition renderOf (c : Component) : Render :=
  mkRender (isStarted c) (isMuted c) (confidence c).

(** [detectFaces] up to its [await]: the guards and the frame repaint.
    [None] is the early [return].  The refs are read from the component,
    [isStarted] is the one of the render [seen] that made the function. *)
Definition detectFaces_begin (seen : Render) (c : Component)
  : option Component :=
  if negb (videoRef c) || negb (canvasRef c) || negb (seenStarted seen) then None
  else if negb (context2d c) then None
  else Some (emit [DrawFrame] c).

(** [detectFaces] from the point where [await recognizeFaces(video)]
    resolves with [recognizedFaces]; [now] is the [Date.now()] of
    [handleAudioAlerts] and [timestamp] the [toLocaleTimeString()] of the
    history update. *)
Definition detectFaces_resume (recognizedFaces : list RecognizedFace)
  (now : Z) (timestamp : string) (c : Component) : Component :=
  let filteredFaces := filterFaces (confidence c) recognizedFaces in
  let c1 := setDetections filteredFaces c in
  let c2 := drawFaces filteredFaces c1 in
  let c3 := handleAudioAlerts now filteredFaces c2 in
  if Nat.ltb 0 (List.length filteredFaces) then
    let newEntries := map (historyEntry timestamp) filteredFaces in
    setFaceHistory (fun prev => firstn 10 (newEntries ++ prev)) c3
  else c3.

(** The same continuation for a [detectFaces] made by the render [seen],
    run on the component as it is when the promise resolves: the
    [confidence] of the filter and the [isMuted] of [handleAudioAlerts] are
    the ones of [seen]; what it sets and emits goes to the component, whose
    own threshold and mute switch stay as they are. *)
Definition detectFaces_settle (seen : Render)
  (recognizedFaces : list RecognizedFace) (now : Z) (timestamp : string)
  (c : Component) : Component :=
  let asSeen :=
    setIsMuted (fun _ => seenMuted seen) (setConfidence (seenConfidence seen) c) in
  let c' := detectFaces_resume recognizedFaces now timestamp asSeen in
  setIsMuted (fun _ => isMuted c) (setConfidence (confidence c) c').

(** [toggleMute] and [handleConfidenceChange]. *)
Definition toggleMute (c : Component) : Component :=
  emit [ShowToast (ToastInfo (if negb (isMuted c) then "Audio alerts muted"
                              else "Audio alerts enabled"))]
    (setIsMuted negb c).

Definition handleConfidenceChange (value : Q) (c : Component) : Component :=
  setConfidence value c.

(** The [loadModels] effect that runs on mount.  [modelsLoaded] is what
    [loadFaceRecognitionModels] resolved to; [probe] and [faceMatcher] are
    handed to [loadReferenceFaces], which is only called once the models
    are there.  Both [throw]s land in the same [catch]. *)
Definition loadModels (modelsLoaded : bool) (probe : KnownFace -> RefOutcome)
  (faceMatcher : option FaceMatcher) (c : Component)
  : Component * option FaceMatcher :=
  let c0 :=
    emit [ShowToast (ToastInfo "Loading face recognition models...")]
      (setIsModelLoading true c) in
  let failed :=
    emit [ShowToast (ToastError "Failed to load face recognition models")]
      (setIsModelLoading false c0) in
  if modelsLoaded then
    let refs := loadReferenceFaces knownFaces probe faceMatcher in
    if lr_ok refs then
      (emit [ShowToast (ToastSuccess "Face recognition ready!")]
         (setIsModelLoading false c0),
       lr_matcher refs)
    else (failed, lr_matcher refs)
  else (failed, faceMatcher).

(** *** The event loop

    The page runs one event at a time.  The main button is bound by
    [onClick={isStarted ? stopCamera : startCamera}] and disabled while the
    models load, so a click starts a call of [startCamera] made by the
    render of the click, or runs [stopCamera].  A call of [startCamera]
    waits for the camera, then for [play()]; the timer it sets calls the
    [detectFaces] of the same render.  A detection that has passed its
    guards stays in flight until its promise resolves.  Promises settle in
    any order: the events that settle one say which. *)
Inductive Event : Type :=
| EvClickMain
| EvStream (k : nat) (granted : bool)
| EvPlay (k : nat) (played : bool) (handle : nat)
| EvTick
| EvResolve (k : nat) (recognizedFaces : list RecognizedFace) (now : Z)
    (timestamp : string)
| EvToggleMute
| EvConfidence (value : Q).

Record World : Type := mkWorld {
  comp : Component;
  awaitingStream : list Render;  (* calls of startCamera at getUserMedia *)
  awaitingPlay : list Render;    (* calls of startCamera at play() *)
  timerSees : Render;            (* the render of the callback of the timer *)
  inflight : list Render         (* calls of detectFaces at recognizeFaces *)
}.

(** Element [k] of a list, and the list without it. *)
Fixpoint pick {A : Type} (k : nat) (l : list A) : option (A * list A) :=
  match l, k with
  | [], _ => None
  | x :: tl, O => Some (x, tl)
  | x :: tl, S k' =>
      match pick k' tl with
      | Some (y, rest) => Some (y, x :: rest)
      | None => None
      end
  end.

Definition step (w : World) (e : Event) : World :=
  let c := comp w in
  match e with
  | EvClickMain =>
      if isModelLoading c then w
      else if isStarted c then
        mkWorld (stopCamera c) (awaitingStream w) (awaitingPlay w)
          (timerSees w) (inflight w)
      else
        mkWorld c (awaitingStream w ++ [renderOf c]) (awaitingPlay w)
          (timerSees w) (inflight w)
  | EvStream k granted =>
      match pick k (awaitingStream w) with
      | None => w
      | Some (seen, rest) =>
          let (c', awaitsPlay) := startCamera_stream granted c in
          mkWorld c' rest
            (if awaitsPlay then awaitingPlay w ++ [seen] else awaitingPlay w)
            (timerSees w) (inflight w)
      end
  | EvPlay k played handle =>
      match pick k (awaitingPlay w) with
      | None => w
      | Some (seen, rest) =>
          mkWorld (startCamera_play played handle c) (awaitingStream w) rest
            (if played then seen else timerSees w) (inflight w)
      end
  | EvTick =>
      match detectionIntervalRef c with
      | None => w
      | Some _ =>
          match detectFaces_begin (timerSees w) c with
          | None => w
          | Some c' =>
              mkWorld c' (awaitingStream w) (awaitingPlay w) (timerSees w)
                (inflight w ++ [timerSees w])
          end
      end
  | EvResolve k recognizedFaces now timestamp =>
      match pick k (inflight w) with
      | None => w
      | Some (seen, rest) =>
          mkWorld (detectFaces_settle seen recognizedFaces now timestamp c)
            (awaitingStream w) (awaitingPlay w) (timerSees w) rest
      end
  | EvToggleMute =>
      mkWorld (toggleMute c) (awaitingStream w) (awaitingPlay w)
        (timerSees w) (inflight w)
  | EvConfidence value =>
      mkWorld (handleConfidenceChange value c) (awaitingStream w)
        (awaitingPlay w) (timerSees w) (inflight w)
  end.

Definition run (w : World) (es : list Event) : World := fold_left step es w.

(** The page after mount; no timer is set, so [timerSees] is not read
    before a start sets it. *)
Definition initialWorld : World :=
  mkWorld initialComponent [] [] (renderOf initialComponent) [].

(** The spoken texts in an effect log. *)
Fixpoint spokenTexts (es : list Effect) : list string :=
  match es with
  | [] => []
  | Speak t :: tl => t :: spokenTexts tl
  | _ :: tl => spokenTexts tl
  end.

(** The face lists handed to [drawFaces] in an effect log. *)
Fixpoint drawnFaces (es : list Effect) : list (list RecognizedFace) :=
  match es with
  | [] => []
  | DrawFaces fs :: tl => fs :: drawnFaces tl
  | _ :: tl => drawnFaces tl
  end.

(** ** The older snapshot of the component (object-detection pipeline)

    Here the detector is a generic object detector: its results are
    filtered to the label "person", the confidence threshold is handed to
    the detector itself, and every alert carries the one label "Face". *)
Module Detr.

Record Corners : Type := mkCorners { xmin : Q; ymin : Q; xmax : Q; ymax : Q }.

(** One result of the pipeline. *)
Record RawDetection : Type := mkRaw {
  raw_label : string;
  raw_score : Q;
  raw_box : Corners
}.

(** [interface Detection]. *)
Record Detection : Type := mkDetection {
  id : string;
  label : string;
  score : Q;
  box : Corners
}.

Record Component : Type := mkComponent {
  detections : list Detection;
  isMuted : bool;
  faceHistory : list string;
  lastSpokenRef : LastSpoken;
  canvasWidth : Q;
  canvasHeight : Q;
  drawn : list (list Detection);     (* arguments of drawFaces, oldest first *)
  spoken : list string               (* utterances, oldest first *)
}.

Definition decimal (n : nat) : string :=
  DecimalString.NilZero.string_of_uint (Nat.to_uint n).

Definition decimalZ (z : Z) : string :=
  DecimalString.NilZero.string_of_int (Z.to_int z).

(** The [map] callback of [detectFaces]; [now] is its [Date.now()]. *)
Definition toFace (c : Component) (now : Z) (index : nat) (d : RawDetection)
  : Detection :=
  mkDetection ("face-" +++ decimal index +++ "-" +++ decimalZ now) "Face"
    (raw_score d)
    (mkCorners (xmin (raw_box d) * canvasWidth c)
               (ymin (raw_box d) * canvasHeight c)
               (xmax (raw_box d) * canvasWidth c)
               (ymax (raw_box d) * canvasHeight c)).

Fixpoint mapi {A B : Type} (f : nat -> A -> B) (i : nat) (l : list A) : list B :=
  match l with
  | [] => []
  | a :: tl => f i a :: mapi f (S i) tl
  end.

(** [handleAudioAlerts(faces)]. *)
Definition handleAudioAlerts (now : Z) (faces : list Detection) (c : Component)
  : Component :=
  if isMuted c || Nat.eqb (List.length faces) 0 then c
  else if String.eqb (ls_label (lastSpokenRef c)) "Face"
          && (now - ls_time (lastSpokenRef c) <? 5000)%Z then c
  else
    let text :=
      if Nat.eqb (List.length faces) 1 then ["Face detected."]
      else if Nat.ltb 1 (List.length faces)
           then [decimal (List.length faces) +++ " faces detected."]
           else [] in
    mkComponent (detections c) (isMuted c) (faceHistory c)
      (mkSpoken "Face" now) (canvasWidth c) (canvasHeight c) (drawn c)
      (spoken c ++ text).

(** [detectFaces] from the point where the awaited detector call resolves
    with [results]; [now] is the [Date.now()] of the ids, [alertNow] the one
    of [handleAudioAlerts], [timestamp] the [toLocaleTimeString()]. *)
Definition detectFaces_resume (results : list RawDetection) (now alertNow : Z)
  (timestamp : string) (c : Component) : Component :=
  let faceDetections :=
    mapi (toFace c now) 0
      (filter (fun d => String.eqb (raw_label d) "person") results) in
  let c1 :=
    mkComponent faceDetections (isMuted c) (faceHistory c) (lastSpokenRef c)
      (canvasWidth c) (canvasHeight c) (drawn c ++ [faceDetections]) (spoken c) in
  let c2 := handleAudioAlerts alertNow faceDetections c1 in
  if Nat.ltb 0 (List.length faceDetections) then
    let newEntry := "Face detected at " +++ timestamp in
    mkComponent (detections c2) (isMuted c2)
      (firstn 10 (newEntry :: faceHistory c2)) (lastSpokenRef c2)
      (canvasWidth c2) (canvasHeight c2) (drawn c2) (spoken c2)
  else c2.

End Detr.

(** ** Detection cycles *)

(** A resolved detection cycle of the face-api component: what
    [recognizeFaces] returned and the two clock readings. *)
Record Cycle : Type := mkCycle {
  cy_recognized : list RecognizedFace;
  cy_now : Z;
  cy_timestamp : string
}.

Definition runCycle (c : Component) (cy : Cycle) : Component :=
  detectFaces_resume (cy_recognized cy) (cy_now cy) (cy_timestamp cy) c.

Definition runCycles (c : Component) (cys : list Cycle) : Component :=
  fold_left runCycle cys c.

(** The history lines a cycle contributes under threshold [t]. *)
Definition cycleEntries (t : Q) (cy : Cycle) : list string :=
  map (historyEntry (cy_timestamp cy)) (filterFaces t (cy_recognized cy)).

(** The same for the older component. *)
Record DetrCycle : Type := mkDetrCycle {
  dc_results : list Detr.RawDetection;
  dc_now : Z;
  dc_alertNow : Z;
  dc_timestamp : string
}.

Definition runDetrCycle (c : Detr.Component) (cy : DetrCycle) : Detr.Component :=
  Detr.detectFaces_resume (dc_results cy) (dc_now cy) (dc_alertNow cy)
    (dc_timestamp cy) c.

Definition detrPersons (cy : DetrCycle) : list Detr.RawDetection :=
  filter (fun d => String.eqb (Detr.raw_label d) "person") (dc_results cy).

(** The history line a cycle of the older component contributes: one line
    when at least one person was detected. *)
Definition detrEntries (cy : DetrCycle) : list string :=
  match detrPersons cy with
  | [] => []
  | _ :: _ => ["Face detected at " +++ dc_timestamp cy]
  end.

(** ** Derived notions used in the statements *)

(** The labeled descriptors contributed by the reference identities whose
    image gave a descriptor, in table order. *)
Definition successes (probe : KnownFace -> RefOutcome) (faces : list KnownFace)
  : list LabeledFaceDescriptors :=
  flat_map (fun face => match probe face with
                        | RefFace d => [mkLabeled (kf_id face) d]
                        | _ => []
                        end) faces.

(** The console line [loadReferenceFaces] writes for one reference
    identity. *)
Definition referenceLog (probe : KnownFace -> RefOutcome) (face : KnownFace)
  : LogEntry :=
  match probe face with
  | RefFace _ => ConsoleLog ("Successfully loaded face data for: " +++ kf_name face)
  | RefNoFace =>
      ConsoleWarn ("No face detected in reference image for: " +++ kf_name face)
  | RefThrew =>
      ConsoleError ("Error processing reference face for " +++ kf_name face +++ ":")
  end.

(** Whether the last-spoken cell [ls] suppresses an announcement of [face]
    at time [now]. *)
Definition suppressed (now : Z) (ls : LastSpoken) (face : RecognizedFace) : bool :=
  String.eqb (ls_label ls) (name face) && (now - ls_time ls <? 5000)%Z.

(** The faces of [faces] that get announced at time [now], starting from
    the cell [ls]. *)
Fixpoint alertedFaces (now : Z) (ls : LastSpoken) (faces : list RecognizedFace)
  : list RecognizedFace :=
  match faces with
  | [] => []
  | face :: tl =>
      if suppressed now ls face then alertedFaces now ls tl
      else face :: alertedFaces now (mkSpoken (name face) now) tl
  end.

(** The cell after the faces of [faces] were handled at time [now]. *)
Fixpoint cellAfter (now : Z) (ls : LastSpoken) (faces : list RecognizedFace)
  : LastSpoken :=
  match faces with
  | [] => ls
  | face :: tl =>
      if suppressed now ls face then cellAfter now ls tl
      else cellAfter now (mkSpoken (name face) now) tl
  end.

(** ** Sample data *)

(** The distance between one-component descriptors, [|a - b|] (the
    Euclidean distance in dimension one). *)
Definition lineDistance (a b : Descriptor) : Q :=
  match a, b with
  | [u], [v] => Qabs (u - v)
  | _, _ => 0
  end.

Definition sampleBox : Box := mkBox 10 20 100 120.

Definition ashalFace : RecognizedFace :=
  mkFace "ashal" "ASHAL" user sampleBox (Some (9 # 10)).

Definition tomFace : RecognizedFace :=
  mkFace "tom-cruise" "Tom Cruise" celebrity sampleBox (Some (8 # 10)).

Definition strangerFace : RecognizedFace :=
  mkFace "unknown-1-a" "Unknown" unknown sampleBox (Some (3 # 10)).

Definition farFace : RecognizedFace :=
  mkFace "unknown-2-b" "Unknown" unknown sampleBox (Some (-(1 # 2))).

(** Reference images: the first two fail, the others give a descriptor. *)
Definition sampleProbe (face : KnownFace) : RefOutcome :=
  if String.eqb (kf_id face) "ashal" then RefThrew
  else if String.eqb (kf_id face) "tom-cruise" then RefNoFace
  else if String.eqb (kf_id face) "taylor-swift" then RefFace [1]
  else if String.eqb (kf_id face) "leonardo-dicaprio" then RefFace [3]
  else RefFace [5].

(** Reference images where two identities get the same descriptor. *)
Definition twinProbe (face : KnownFace) : RefOutcome :=
  if String.eqb (kf_id face) "ashal" then RefFace [1]
  else if String.eqb (kf_id face) "tom-cruise" then RefFace [1]
  else RefThrew.

(** No reference image shows a face. *)
Definition emptyProbe (face : KnownFace) : RefOutcome := RefNoFace.

Definition sampleMatcher : FaceMatcher :=
  mkMatcher [mkLabeled "ashal" [0]; mkLabeled "tom-cruise" [1];
             mkLabeled "taylor-swift" [1]] (6 # 10).

(** The matcher [loadReferenceFaces] builds from [twinProbe]. *)
Definition twinMatcher : FaceMatcher :=
  mkMatcher [mkLabeled "ashal" [1]; mkLabeled "tom-cruise" [1]] (6 # 10).

Definition sampleFrame (q : Q) : Frame :=
  mkFrame (Returned [mkDet sampleBox "7-x"])
          (Returned [mkDetD sampleBox [q] "7-x"]).

Definition brokenFrame : Frame :=
  mkFrame (Returned [mkDet sampleBox "7-x"]) Threw.

Definition sampleCycle (n : nat) : Cycle :=
  mkCycle [ashalFace; strangerFace] (1000000 + 500 * Z.of_nat n)
    (Detr.decimal n).

Definition samplePerson : Detr.RawDetection :=
  Detr.mkRaw "person" (9 # 10) (Detr.mkCorners (1 # 10) (1 # 10) (1 # 2) (1 # 2)).

Definition detrInitial : Detr.Component :=
  Detr.mkComponent [] false [] (mkSpoken EmptyString 0) 1280 720 [] [].

(** ** More of the service and of the component *)

(** [loadFaceRecognitionModels]: the three [loadFromUri] calls run under
    [Promise.all]; each argument tells how one of them ended. *)
Definition loadFaceRecognitionModels
  (ssdMobilenetv1 faceLandmark68Net faceRecognitionNet : Outcome unit)
  : bool * list LogEntry :=
  match ssdMobilenetv1, faceLandmark68Net, faceRecognitionNet with
  | Returned _, Returned _, Returned _ => (true, [])
  | _, _, _ => (false, [ConsoleError "Error loading face recognition models:"])
  end.

(** The [for] loop of [loadReferenceFaces] in the older snapshot of the
    service: no try/catch around one image, no console line.  [Threw] means
    that an exception left the loop. *)
Fixpoint loadLoop_old (probe : KnownFace -> RefOutcome) (faces : list KnownFace)
  (labeledDescriptors : list LabeledFaceDescriptors)
  : Outcome (list LabeledFaceDescriptors) :=
  match faces with
  | [] => Returned labeledDescriptors
  | face :: tl =>
      match probe face with
      | RefThrew => Threw
      | RefNoFace => loadLoop_old probe tl labeledDescriptors
      | RefFace d =>
          loadLoop_old probe tl
            (labeledDescriptors ++ [mkLabeled (kf_id face) d])
      end
  end.

(** [loadReferenceFaces] of the older snapshot.  It hands the descriptor
    list to [new faceapi.FaceMatcher] without looking at its length;
    [emptyMatcher] is what that constructor does with the empty list (the
    library decides). *)
Definition loadReferenceFaces_old (emptyMatcher : Outcome FaceMatcher)
  (faces : list KnownFace) (probe : KnownFace -> RefOutcome)
  (faceMatcher : option FaceMatcher) : LoadResult :=
  let failed :=
    mkLoad false faceMatcher [ConsoleError "Error loading reference faces:"] in
  match loadLoop_old probe faces [] with
  | Threw => failed
  | Returned [] =>
      match emptyMatcher with
      | Returned m => mkLoad true (Some m) []
      | Threw => failed
      end
  | Returned (ld :: lds) => mkLoad true (Some (mkMatcher (ld :: lds) (6 # 10))) []
  end.

(** The clean-up the mount effect returns: stop the tracks of an attached
    stream and clear the timer (neither ref is reset). *)
Definition unmountCleanup (c : Component) : Component :=
  clearDetectionInterval
    (if videoRef c && srcObject c then emit [StopTracks] c else c).

(** [Math.round]: to the nearest integer, halves upwards. *)
Definition mathRound (v : Q) : Z := Qfloor (v + (1 # 2)).

(** An integer inside a template literal. *)
Definition showInt (z : Z) : string := Detr.decimalZ z.

(** The pieces of [drawFaces] that depend on the face: the colour prefix,
    the confidence text, the label and the crown. *)
Definition colorBase (face : RecognizedFace) : string :=
  match category face with
  | user => "rgba(0, 132, 255, "
  | celebrity => "rgba(255, 128, 0, "
  | unknown => "rgba(150, 150, 150, "
  end.

Definition confidenceText (face : RecognizedFace) : string :=
  match score face with
  | Some s =>
      if truthy s then " (" +++ showInt (mathRound (s * 100)) +++ "%)"
      else EmptyString
  | None => EmptyString
  end.

Definition faceLabel (face : RecognizedFace) : string :=
  name face +++ confidenceText face.

Definition hasCrown (face : RecognizedFace) : bool :=
  String.eqb (name face) "ASHAL".

(** The threshold as the settings panel prints it:
    [{Math.round(confidence * 100)}%]. *)
Definition thresholdText (confidence : Q) : string :=
  showInt (mathRound (confidence * 100)) +++ "%".

(** The label [drawFaces] of the older component prints:
    [`Face (${confidencePercent}%)`]. *)
Definition detrLabel (face : Detr.Detection) : string :=
  "Face (" +++ showInt (mathRound (Detr.score face * 100)) +++ "%)".

(** *** Notions used in the statements below *)

(** What the events keep true of the component: the timer is set exactly
    while the camera is started. *)
Definition lifecycleOk (c : Component) : Prop :=
  isStarted c = true <-> detectionIntervalRef c <> None.

(** Every render in [l] saw the camera stopped. *)
Definition sawStopped (l : list Render) : Prop :=
  Forall (fun seen => seenStarted seen = false) l.

(** The frames painted in an effect log: the repaints of [detectFaces]
    and the calls of [drawFaces]. *)
Fixpoint painted (es : list Effect) : list Effect :=
  match es with
  | [] => []
  | DrawFrame :: tl => DrawFrame :: painted tl
  | DrawFaces fs :: tl => DrawFaces fs :: painted tl
  | _ :: tl => painted tl
  end.

(** The page has detected nothing: every render a timer calls into, now
    or once a start under way has gone through, saw the camera stopped; no
    detection is in flight; nothing was stored, recorded, painted or
    spoken. *)
Definition neverDetected (w : World) : Prop :=
  sawStopped (awaitingStream w) /\ sawStopped (awaitingPlay w) /\
  seenStarted (timerSees w) = false /\
  inflight w = [] /\
  detections (comp w) = [] /\ faceHistory (comp w) = [] /\
  painted (effects (comp w)) = [] /\ spokenTexts (effects (comp w)) = [].

(** The timer handles cleared in an effect log, oldest first. *)
Fixpoint clearedHandles (es : list Effect) : list nat :=
  match es with
  | [] => []
  | ClearInterval h :: tl => h :: clearedHandles tl
  | _ :: tl => clearedHandles tl
  end.

(** The timer handles [window.setInterval] returned in the course of the
    events [es] run from [w]: one per call of [startCamera] whose [play()]
    resolved. *)
Fixpoint handlesSet (w : World) (es : list Event) : list nat :=
  match es with
  | [] => []
  | e :: tl =>
      match e with
      | EvPlay k true handle =>
          match pick k (awaitingPlay w) with
          | Some _ => [handle]
          | None => []
          end
      | _ => []
      end ++ handlesSet (step w e) tl
  end.

(** The timer the component currently holds. *)
Definition liveHandle (c : Component) : list nat :=
  match detectionIntervalRef c with
  | Some h => [h]
  | None => []
  end.

(** No two neighbours of the list carry the same name. *)
Fixpoint noRepeat (fs : list RecognizedFace) : Prop :=
  match fs with
  | a :: (b :: _) as tl => name a <> name b /\ noRepeat tl
  | _ => True
  end.

(** Whether the image of an identity gave a descriptor. *)
Definition gaveFace (probe : KnownFace -> RefOutcome) (face : KnownFace) : bool :=
  match probe face with
  | RefFace _ => true
  | _ => false
  end.

(** A box in relative coordinates, and a box inside a canvas. *)
Definition inUnitSquare (b : Detr.Corners) : Prop :=
  0 <= Detr.xmin b <= 1 /\ 0 <= Detr.ymin b <= 1 /\
  0 <= Detr.xmax b <= 1 /\ 0 <= Detr.ymax b <= 1.

Definition inCanvas (w h : Q) (b : Detr.Corners) : Prop :=
  0 <= Detr.xmin b <= w /\ 0 <= Detr.ymin b <= h /\
  0 <= Detr.xmax b <= w /\ 0 <= Detr.ymax b <= h.

(** Where a returned face comes from: either it is anonymous, or it is an
    identity of the reference table. *)
Definition anonymousOrKnown (faces : list KnownFace) (f : RecognizedFace) : Prop :=
  (category f = unknown /\
   (name f = "Face Detected" \/ name f = "Unknown") /\
   exists stamp, id f = "unknown-" +++ stamp)
  \/
  (exists k, In k faces /\ kf_id k <> "unknown" /\
             id f = kf_id k /\ name f = kf_name k /\
             category f = category_of (kf_category k) /\
             exists s, score f = Some s).

(** * Properties *)

Lemma Qlt_bool_iff (a b : Q) : Qlt_bool a b = true <-> a < b.
Proof.
  unfold Qlt_bool. rewrite negb_true_iff.
  split; intro H.
  - apply Qnot_le_lt. intro Hle. apply Qle_bool_iff in Hle. congruence.
  - destruct (Qle_bool b a) eqn:E; [|reflexivity].
    apply Qle_bool_iff in E. exfalso. apply (Qlt_not_le _ _ H E).
Qed.

Lemma Qlt_bool_false_iff (a b : Q) : Qlt_bool a b = false <-> b <= a.
Proof.
  unfold Qlt_bool. rewrite negb_false_iff. apply Qle_bool_iff.
Qed.

Lemma truthy_iff (a : Q) : truthy a = true <-> ~ a == 0.
Proof.
  unfold truthy. rewrite negb_true_iff. split; intro H.
  - apply Qeq_bool_neq. exact H.
  - destruct (Qeq_bool a 0) eqn:E; [|reflexivity].
    apply Qeq_bool_iff in E. contradiction.
Qed.

(** ** The model at work *)

(** A score of zero or below never passes a threshold of the slider's
    range; the filter compares strictly. *)
Example filterFaces_examples :
  filterFaces (1 # 10) [ashalFace; strangerFace; farFace] = [ashalFace; strangerFace] /\
  filterFaces (9 # 10) [ashalFace; strangerFace; farFace] = [].
Proof. split; reflexivity. Qed.

(** The loader on the sample reference images. *)
Example loadReferenceFaces_example :
  map label (successes sampleProbe knownFaces) =
    ["taylor-swift"; "leonardo-dicaprio"; "beyonce"] /\
  lr_matcher (loadReferenceFaces knownFaces twinProbe None) = Some twinMatcher /\
  lr_matcher (loadReferenceFaces knownFaces emptyProbe None) = None.
Proof. repeat split. Qed.

(** Recognition against the sample matcher: a face at 1/10 is ASHAL with
    score 9/10, a face at 2 is unknown with score 0. *)
Example recognizeFaces_example :
  map (fun f => (name f, option_map Qred (score f)))
    (recognizeFaces lineDistance knownFaces (Some sampleMatcher)
       (sampleFrame (1 # 10))) = [("ASHAL", Some (9 # 10))] /\
  map (fun f => (name f, option_map Qred (score f)))
    (recognizeFaces lineDistance knownFaces (Some sampleMatcher)
       (sampleFrame 2)) = [("Unknown", Some 0)].
Proof. split; vm_compute; reflexivity. Qed.

(** The older component: two persons in view for two cycles 3 s apart
    are announced once, and each cycle adds one history line. *)
Example detr_cycles_example :
  let c := fold_left runDetrCycle
             [mkDetrCycle [samplePerson; samplePerson] 1000000 1000000 "10:00:00";
              mkDetrCycle [samplePerson; samplePerson] 1003000 1003000 "10:00:03"]
             detrInitial in
  Detr.spoken c = ["2 faces detected."] /\
  Detr.faceHistory c = ["Face detected at 10:00:03"; "Face detected at 10:00:00"] /\
  map Detr.id (Detr.detections c) = ["face-0-1003000"; "face-1-1003000"].
Proof. vm_compute. repeat split. Qed.

(** ** Facts about the matcher *)

Section MatcherFacts.

Variable dist : Descriptor -> Descriptor -> Q.

(** The scan either keeps its starting match, which then is no farther
    than any entry scanned, or ends on the first strictly closer entry that
    no later entry beats. *)
Lemma matchDescriptor_scan (query : Descriptor) :
  forall (rest : list LabeledFaceDescriptors) (best : FaceMatch),
    (matchDescriptor dist best rest query = best /\
     Forall (fun o => fm_distance best <= distanceTo dist query o) rest)
    \/
    (exists pre e post,
        firstNearest dist query rest pre e post /\
        matchDescriptor dist best rest query = matchOf dist query e /\
        distanceTo dist query e < fm_distance best).
Proof.
  induction rest as [|a tl IH]; intro best; simpl.
  - left. split; [reflexivity | constructor].
  - destruct (Qlt_bool (dist query (descriptor a)) (fm_distance best)) eqn:E.
    + apply Qlt_bool_iff in E.
      destruct (IH (mkMatch (label a) (dist query (descriptor a))))
        as [[Heq Hall] | (pre & e & post & (Hsplit & Hpre & Hpost) & Heq & Hlt)].
      * right. exists [], a, tl. repeat split.
        -- constructor.
        -- exact Hall.
        -- exact Heq.
        -- exact E.
      * right. exists (a :: pre), e, post. simpl in Hlt. repeat split.
        -- simpl. now rewrite Hsplit.
        -- constructor; [exact Hlt | exact Hpre].
        -- exact Hpost.
        -- exact Heq.
        -- eapply Qlt_trans; eassumption.
    + apply Qlt_bool_false_iff in E.
      destruct (IH best)
        as [[Heq Hall] | (pre & e & post & (Hsplit & Hpre & Hpost) & Heq & Hlt)].
      * left. split; [exact Heq |]. constructor; [exact E | exact Hall].
      * right. exists (a :: pre), e, post. repeat split.
        -- simpl. now rewrite Hsplit.
        -- constructor; [|exact Hpre].
           unfold distanceTo at 2. eapply Qlt_le_trans; eassumption.
        -- exact Hpost.
        -- exact Heq.
        -- exact Hlt.
Qed.

(** On a non-empty descriptor list the scan started at the head ends on
    the first nearest entry of the whole list. *)
Lemma matchDescriptor_first_nearest (query : Descriptor)
  (ld : LabeledFaceDescriptors) (tl : list LabeledFaceDescriptors) :
  exists pre e post,
    firstNearest dist query (ld :: tl) pre e post /\
    matchDescriptor dist (matchOf dist query ld) tl query = matchOf dist query e.
Proof.
  destruct (matchDescriptor_scan query tl (matchOf dist query ld))
    as [[Heq Hall] | (pre & e & post & (Hsplit & Hpre & Hpost) & Heq & Hlt)].
  - exists [], ld, tl. repeat split.
    + constructor.
    + exact Hall.
    + exact Heq.
  - exists (ld :: pre), e, post. repeat split.
    + simpl. now rewrite Hsplit.
    + constructor; [exact Hlt | exact Hpre].
    + exact Hpost.
    + exact Heq.
Qed.

(** The first nearest entry is unique. *)
Lemma firstNearest_unique (query : Descriptor)
  (lds pre1 post1 pre2 post2 : list LabeledFaceDescriptors)
  (e1 e2 : LabeledFaceDescriptors) :
  firstNearest dist query lds pre1 e1 post1 ->
  firstNearest dist query lds pre2 e2 post2 ->
  pre1 = pre2 /\ e1 = e2 /\ post1 = post2.
Proof.
  intros (H1 & Hpre1 & Hpost1). revert lds pre2 H1 Hpre1.
  induction pre1 as [|a pre1 IH]; intros lds pre2 H1 Hpre1 (H2 & Hpre2 & Hpost2).
  - destruct pre2 as [|b pre2].
    + simpl in *. rewrite H1 in H2. now inversion H2.
    + exfalso. simpl in *. rewrite H1 in H2. inversion H2; subst.
      inversion Hpre2 as [|? ? Hb _]; subst.
      assert (Hin : In e2 (pre2 ++ e2 :: post2))
        by (apply in_or_app; right; left; reflexivity).
      rewrite Forall_forall in Hpost1. specialize (Hpost1 _ Hin).
      apply (Qlt_not_le _ _ Hb Hpost1).
  - destruct pre2 as [|b pre2].
    + exfalso. simpl in *. rewrite H1 in H2. inversion H2; subst.
      inversion Hpre1 as [|? ? Ha _]; subst.
      assert (Hin : In e1 (pre1 ++ e1 :: post1))
        by (apply in_or_app; right; left; reflexivity).
      rewrite Forall_forall in Hpost2. specialize (Hpost2 _ Hin).
      apply (Qlt_not_le _ _ Ha Hpost2).
    + simpl in *. rewrite H1 in H2. inversion H2; subst.
      inversion Hpre1; subst. inversion Hpre2; subst.
      destruct (IH (pre1 ++ e1 :: post1) pre2 eq_refl) as (-> & -> & ->); auto.
      repeat split; auto.
Qed.

(** [findBestMatch] in terms of the first nearest entry. *)
Lemma findBestMatch_first_nearest (lds : list LabeledFaceDescriptors)
  (threshold : Q) (query : Descriptor) :
  lds <> [] ->
  exists pre e post,
    firstNearest dist query lds pre e post /\
    findBestMatch dist (mkMatcher lds threshold) query =
      Some (if Qlt_bool (distanceTo dist query e) threshold
            then matchOf dist query e
            else mkMatch "unknown" (distanceTo dist query e)).
Proof.
  intro Hne. destruct lds as [|ld tl]; [contradiction|].
  destruct (matchDescriptor_first_nearest query ld tl)
    as (pre & e & post & Hfirst & Heq).
  exists pre, e, post. split; [exact Hfirst|].
  unfold findBestMatch. cbn [labeledDescriptors distanceThreshold].
  fold (distanceTo dist query ld). fold (matchOf dist query ld).
  rewrite Heq. reflexivity.
Qed.

End MatcherFacts.

(** [findBestMatch] has a result on every non-empty descriptor list. *)
Lemma findBestMatch_some (dist : Descriptor -> Descriptor -> Q)
  (lds : list LabeledFaceDescriptors) (threshold : Q) (query : Descriptor) :
  lds <> [] ->
  exists bm, findBestMatch dist (mkMatcher lds threshold) query = Some bm.
Proof.
  intro Hne.
  destruct (findBestMatch_first_nearest dist lds threshold query Hne)
    as (pre & e & post & _ & Heq).
  eexists. exact Heq.
Qed.

(** A label other than "unknown" is only returned with a distance below
    the threshold. *)
Lemma findBestMatch_label_below (dist : Descriptor -> Descriptor -> Q)
  (m : FaceMatcher) (query : Descriptor) (bm : FaceMatch) :
  findBestMatch dist m query = Some bm ->
  fm_label bm <> "unknown" ->
  fm_distance bm < distanceThreshold m.
Proof.
  unfold findBestMatch. destruct (labeledDescriptors m) as [|ld tl]; [discriminate|].
  cbv zeta.
  destruct (Qlt_bool _ (distanceThreshold m)) eqn:E; intros Heq Hlabel;
    inversion Heq; subst; clear Heq.
  - apply Qlt_bool_iff in E. exact E.
  - exfalso. apply Hlabel. reflexivity.
Qed.

(** At or above the threshold the label is "unknown". *)
Lemma findBestMatch_far_unknown (dist : Descriptor -> Descriptor -> Q)
  (m : FaceMatcher) (query : Descriptor) (bm : FaceMatch) :
  findBestMatch dist m query = Some bm ->
  distanceThreshold m <= fm_distance bm ->
  fm_label bm = "unknown".
Proof.
  unfold findBestMatch. destruct (labeledDescriptors m) as [|ld tl]; [discriminate|].
  cbv zeta.
  destruct (Qlt_bool _ (distanceThreshold m)) eqn:E; intros Heq Hfar;
    inversion Heq; subst; clear Heq.
  - apply Qlt_bool_iff in E. exfalso. apply (Qlt_not_le _ _ E Hfar).
  - reflexivity.
Qed.

(** The score of a matched face. *)
Lemma faceOfMatch_score (faces : list KnownFace) (d : DetectionWithDescriptor)
  (bm : FaceMatch) :
  score (faceOfMatch faces d bm) = Some (1 - fm_distance bm).
Proof.
  unfold faceOfMatch.
  destruct (findKnown faces (fm_label bm)); [|reflexivity].
  destruct (negb (fm_label bm =? "unknown")%string); reflexivity.
Qed.

(** A matched face of a known category carries a label other than
    "unknown". *)
Lemma faceOfMatch_known_label (faces : list KnownFace)
  (d : DetectionWithDescriptor) (bm : FaceMatch) :
  category (faceOfMatch faces d bm) <> unknown -> fm_label bm <> "unknown".
Proof.
  unfold faceOfMatch. intros Hcat Hlabel.
  destruct (findKnown faces (fm_label bm)).
  - rewrite Hlabel in Hcat. simpl in Hcat. apply Hcat. reflexivity.
  - apply Hcat. reflexivity.
Qed.

(** A match labeled "unknown" gives the face "Unknown". *)
Lemma faceOfMatch_unknown (faces : list KnownFace)
  (d : DetectionWithDescriptor) (bm : FaceMatch) :
  fm_label bm = "unknown" ->
  name (faceOfMatch faces d bm) = "Unknown" /\
  category (faceOfMatch faces d bm) = unknown.
Proof.
  unfold faceOfMatch. intro Hlabel. rewrite Hlabel.
  destruct (findKnown faces "unknown"); simpl; split; reflexivity.
Qed.

(** Every face the matching callback returns is scored by its match. *)
Lemma faceOfMatch_scored (dist : Descriptor -> Descriptor -> Q)
  (faces : list KnownFace) (lds : list LabeledFaceDescriptors)
  (d : DetectionWithDescriptor) (bm : FaceMatch) :
  findBestMatch dist (mkMatcher lds (6 # 10)) (dd_descriptor d) = Some bm ->
  scoredByMatch dist (mkMatcher lds (6 # 10)) d (faceOfMatch faces d bm).
Proof.
  intro Hbm. exists bm. split; [exact Hbm|].
  split; [apply faceOfMatch_score|]. split.
  - intro Hcat. apply faceOfMatch_known_label in Hcat.
    pose proof (findBestMatch_label_below dist _ _ _ Hbm Hcat) as Hlt.
    cbn [distanceThreshold] in Hlt. split; [exact Hlt | lra].
  - intro Hfar.
    assert (Hlabel : fm_label bm = "unknown").
    { apply (findBestMatch_far_unknown dist _ _ _ Hbm).
      cbn [distanceThreshold]. lra. }
    destruct (faceOfMatch_unknown faces d bm Hlabel) as [Hn Hc].
    repeat split; [exact Hn | exact Hc | lra].
Qed.

(** The [map] of [recognizeFaces] goes through on a non-empty matcher and
    scores every detection. *)
Lemma matchAll_scored (dist : Descriptor -> Descriptor -> Q)
  (faces : list KnownFace) (lds : list LabeledFaceDescriptors) :
  lds <> [] ->
  forall ds : list DetectionWithDescriptor,
  exists fs,
    matchAll dist faces (mkMatcher lds (6 # 10)) ds = Some fs /\
    Forall2 (scoredByMatch dist (mkMatcher lds (6 # 10))) ds fs.
Proof.
  intros Hne ds. induction ds as [|d tl (fs & Heq & Hall)].
  - exists []. split; [reflexivity | constructor].
  - destruct (findBestMatch_some dist lds (6 # 10) (dd_descriptor d) Hne)
      as (bm & Hbm).
    exists (faceOfMatch faces d bm :: fs). split.
    + simpl. rewrite Hbm, Heq. reflexivity.
    + constructor; [|exact Hall]. apply faceOfMatch_scored. exact Hbm.
Qed.



(** ** C3: the contract of the matcher *)

(** C3.  For a query descriptor and a non-empty list of labeled descriptors
    under the 0.6 threshold, there is an entry [e] of the list that is the
    first nearest one: every entry before it in load order is strictly
    farther from the query and no entry after it is closer.  When its
    distance is below 0.6 the matcher returns the label of [e] with that
    distance; when its distance is 0.6 or more the matcher returns
    "unknown" with that same minimum distance. *)
Theorem C3_matcher_contract :
  forall (dist : Descriptor -> Descriptor -> Q)
         (lds : list LabeledFaceDescriptors) (query : Descriptor),
    lds <> [] ->
    exists pre e post,
      firstNearest dist query lds pre e post /\
      (distanceTo dist query e < (6 # 10) ->
       findBestMatch dist (mkMatcher lds (6 # 10)) query =
         Some (mkMatch (label e) (distanceTo dist query e))) /\
      ((6 # 10) <= distanceTo dist query e ->
       findBestMatch dist (mkMatcher lds (6 # 10)) query =
         Some (mkMatch "unknown" (distanceTo dist query e))).
Proof.
  intros dist lds query Hne.
  destruct (findBestMatch_first_nearest dist lds (6 # 10) query Hne)
    as (pre & e & post & Hfirst & Heq).
  exists pre, e, post. split; [exact Hfirst|]. split; intro H.
  - apply Qlt_bool_iff in H. rewrite H in Heq. exact Heq.
  - apply Qlt_bool_false_iff in H. rewrite H in Heq. exact Heq.
Qed.

(** The sample matcher holds "ashal" at 0 and both "tom-cruise" and
    "taylor-swift" at 1.  A query at 1 ties the last two and gets the
    earlier label; a query at 2 is a full unit away from its nearest entries
    and is rejected. *)
Lemma C3_matcher_contract_witness :
  findBestMatch lineDistance sampleMatcher [1] =
    Some (mkMatch "tom-cruise" (lineDistance [1] [1])) /\
  findBestMatch lineDistance sampleMatcher [2] =
    Some (mkMatch "unknown" (lineDistance [2] [1])).
Proof.
  split.
  - destruct (C3_matcher_contract lineDistance
                (labeledDescriptors sampleMatcher) [1])
      as (pre & e & post & Hfirst & Hnear & _); [discriminate|].
    assert (Hmine : firstNearest lineDistance [1]
                      (labeledDescriptors sampleMatcher)
                      [mkLabeled "ashal" [0]] (mkLabeled "tom-cruise" [1])
                      [mkLabeled "taylor-swift" [1]]).
    { split; [reflexivity|]. split.
      - constructor; [vm_compute; reflexivity | constructor].
      - constructor; [vm_compute; discriminate | constructor]. }
    destruct (firstNearest_unique lineDistance _ _ _ _ _ _ _ _ Hfirst Hmine)
      as (_ & He & _).
    subst e. apply Hnear. vm_compute. reflexivity.
  - destruct (C3_matcher_contract lineDistance
                (labeledDescriptors sampleMatcher) [2])
      as (pre & e & post & Hfirst & _ & Hfar); [discriminate|].
    assert (Hmine : firstNearest lineDistance [2]
                      (labeledDescriptors sampleMatcher)
                      [mkLabeled "ashal" [0]] (mkLabeled "tom-cruise" [1])
                      [mkLabeled "taylor-swift" [1]]).
    { split; [reflexivity|]. split.
      - constructor; [vm_compute; reflexivity | constructor].
      - constructor; [vm_compute; discriminate | constructor]. }
    destruct (firstNearest_unique lineDistance _ _ _ _ _ _ _ _ Hfirst Hmine)
      as (_ & He & _).
    subst e. apply Hfar. vm_compute. discriminate.
Defined.

(** ** C8: a query identical to a stored descriptor *)

(** [find] returns an element that satisfies the test: the known face
    found for a label carries that label as its id. *)
Lemma findKnown_id (faces : list KnownFace) (l : string) (k : KnownFace) :
  findKnown faces l = Some k -> kf_id k = l.
Proof.
  unfold findKnown. intro H. apply find_some in H.
  destruct H as [_ H]. apply String.eqb_eq in H. exact H.
Qed.




(** ** C10: the score is one minus the match distance *)

(** C10, as the code has it.  With a matcher built over a non-empty
    descriptor list and the 0.6 threshold, on a frame where both detector
    calls return, [recognizeFaces] returns one face per detection, in
    order, and each face is scored by its best match: its score is one
    minus the match distance; if its category is not unknown the distance
    is below 0.6 and the score at least 0.4; if the distance is 1 or more
    the face is named "Unknown", has category unknown and a score of 0 or
    less.  In the older service the same holds of every returned face on
    every frame. *)
Theorem C10_score_from_distance :
  forall (dist : Descriptor -> Descriptor -> Q) (faces : list KnownFace)
         (lds : list LabeledFaceDescriptors),
    lds <> [] ->
    let m := mkMatcher lds (6 # 10) in
    (forall (basic : list Detection) (ds : list DetectionWithDescriptor),
        Forall2 (scoredByMatch dist m) ds
          (recognizeFaces dist faces (Some m)
             (mkFrame (Returned basic) (Returned ds)))) /\
    (forall (frame : Frame) (face : RecognizedFace),
        In face (recognizeFaces_old dist faces (Some m) frame) ->
        exists ds d,
          fr_full frame = Returned ds /\ In d ds /\ scoredByMatch dist m d face).
Proof.
  intros dist faces lds Hne m. split.
  - intros basic ds.
    destruct (matchAll_scored dist faces lds Hne ds) as (fs & Heq & Hall).
    unfold recognizeFaces. cbn [fr_basic fr_full]. fold m in Heq.
    rewrite Heq. exact Hall.
  - intros frame face Hin. unfold recognizeFaces_old in Hin.
    destruct (fr_full frame) as [ds|] eqn:Hfull; [|contradiction].
    destruct (matchAll_scored dist faces lds Hne ds) as (fs & Heq & Hall).
    fold m in Heq. rewrite Heq in Hin.
    exists ds. clear Heq Hfull.
    induction Hall as [|d f ds' fs' Hd Hall IH]; [contradiction|].
    destruct Hin as [-> | Hin].
    + exists d. repeat split; [left; reflexivity | exact Hd].
    + destruct (IH Hin) as (d' & _ & Hd' & Hs).
      exists d'. repeat split; [right; exact Hd' | exact Hs].
Qed.

(** With the sample matcher a face at 1 is Tom Cruise with a score above
    0.4, and a face at 5/2, a unit and a half from its nearest reference,
    is "Unknown" with the score -1/2. *)
Lemma C10_score_from_distance_witness :
  Forall2 (scoredByMatch lineDistance sampleMatcher)
    [mkDetD sampleBox [1] "7-x"; mkDetD sampleBox [5 # 2] "8-y"]
    (recognizeFaces lineDistance knownFaces (Some sampleMatcher)
       (mkFrame (Returned [])
          (Returned [mkDetD sampleBox [1] "7-x"; mkDetD sampleBox [5 # 2] "8-y"]))) /\
  map (fun f => (name f, category f, option_map Qred (score f)))
    (recognizeFaces lineDistance knownFaces (Some sampleMatcher)
       (mkFrame (Returned [])
          (Returned [mkDetD sampleBox [1] "7-x"; mkDetD sampleBox [5 # 2] "8-y"])))
  = [("Tom Cruise", celebrity, Some 1); ("Unknown", unknown, Some (- (1 # 2)))].
Proof.
  split.
  - assert (Hne : labeledDescriptors sampleMatcher <> []) by discriminate.
    exact (proj1 (C10_score_from_distance lineDistance knownFaces
                    (labeledDescriptors sampleMatcher) Hne) [] _).
  - vm_compute. reflexivity.
Defined.

(** C10 fails as stated: a matcher exists, the plain detection returns a
    face, and the detection with descriptors throws.  The current service
    then returns the fallback entry, which has no score at all. *)
Lemma C10_counterexample :
  map (fun f => (name f, score f))
    (recognizeFaces lineDistance knownFaces (Some sampleMatcher) brokenFrame)
  = [("Face Detected", None)].
Proof. vm_compute. reflexivity. Qed.

(** ** The detection cycle of the component *)

Lemma spokenTexts_app (a b : list Effect) :
  spokenTexts (a ++ b) = spokenTexts a ++ spokenTexts b.
Proof.
  induction a as [|e a IH]; [reflexivity|].
  destruct e; simpl; rewrite IH; reflexivity.
Qed.

Lemma drawnFaces_app (a b : list Effect) :
  drawnFaces (a ++ b) = drawnFaces a ++ drawnFaces b.
Proof.
  induction a as [|e a IH]; [reflexivity|].
  destruct e; simpl; rewrite IH; reflexivity.
Qed.

Lemma spokenTexts_Speak (fs : list RecognizedFace) :
  spokenTexts (map (fun f => Speak (utteranceText f)) fs) = map utteranceText fs.
Proof.
  induction fs as [|f fs IH]; [reflexivity|]. simpl. now rewrite IH.
Qed.

Lemma drawnFaces_Speak (fs : list RecognizedFace) :
  drawnFaces (map (fun f => Speak (utteranceText f)) fs) = [].
Proof.
  induction fs as [|f fs IH]; [reflexivity|]. simpl. exact IH.
Qed.

(** The filter keeps a face exactly when it has a score that is not zero
    and lies strictly above the threshold. *)
Lemma passesConfidence_iff (t : Q) (face : RecognizedFace) :
  passesConfidence t face = true <->
  exists s, score face = Some s /\ ~ s == 0 /\ t < s.
Proof.
  unfold passesConfidence. destruct (score face) as [s|].
  - rewrite andb_true_iff, truthy_iff, Qlt_bool_iff. split.
    + intros [H0 Hlt]. exists s. auto.
    + intros (s' & Hs & H0 & Hlt). inversion Hs; subst. auto.
  - split; [discriminate|]. intros (s & Hs & _). discriminate.
Qed.

Lemma passesConfidence_mono (t t' : Q) (face : RecognizedFace) :
  t <= t' -> passesConfidence t' face = true -> passesConfidence t face = true.
Proof.
  intros Hle H. apply passesConfidence_iff in H.
  destruct H as (s & Hs & H0 & Hlt).
  apply passesConfidence_iff. exists s. repeat split; auto.
  eapply Qle_lt_trans; eassumption.
Qed.

(** Announcements only come from the faces handled. *)
Lemma alertedFaces_incl (now : Z) (faces : list RecognizedFace) :
  forall ls, incl (alertedFaces now ls faces) faces.
Proof.
  induction faces as [|f tl IH]; intros ls; simpl.
  - apply incl_refl.
  - destruct (suppressed now ls f).
    + apply incl_tl. apply IH.
    + apply incl_cons; [left; reflexivity|]. apply incl_tl. apply IH.
Qed.

(** The [forEach] of [handleAudioAlerts] touches the cell and the effect
    log only; it speaks once per alerted face, in order. *)
Lemma alertFace_fold (now : Z) (faces : list RecognizedFace) :
  forall c : Component,
    fold_left (alertFace now) faces c =
    setLastSpoken (cellAfter now (lastSpokenRef c) faces)
      (emit (map (fun f => Speak (utteranceText f))
               (alertedFaces now (lastSpokenRef c) faces)) c).
Proof.
  induction faces as [|f tl IH]; intro c.
  - destruct c. unfold setLastSpoken, emit. simpl. rewrite app_nil_r. reflexivity.
  - simpl. unfold alertFace at 2. fold (suppressed now (lastSpokenRef c) f).
    destruct (suppressed now (lastSpokenRef c) f).
    + apply IH.
    + rewrite IH. destruct c. unfold setLastSpoken, emit. simpl.
      rewrite <- app_assoc. reflexivity.
Qed.

(** [handleAudioAlerts] in closed form. *)
Lemma handleAudioAlerts_eq (now : Z) (faces : list RecognizedFace) (c : Component) :
  handleAudioAlerts now faces c =
  if isMuted c then c
  else setLastSpoken (cellAfter now (lastSpokenRef c) faces)
         (emit (map (fun f => Speak (utteranceText f))
                  (alertedFaces now (lastSpokenRef c) faces)) c).
Proof.
  unfold handleAudioAlerts. destruct (isMuted c); [reflexivity|].
  destruct faces as [|f tl].
  - destruct c. unfold setLastSpoken, emit. simpl. rewrite app_nil_r. reflexivity.
  - cbn [orb List.length Nat.eqb]. apply alertFace_fold.
Qed.

(** The faces announced by one cycle. *)
Lemma handleAudioAlerts_fields (now : Z) (faces : list RecognizedFace) (c : Component) :
  let c' := handleAudioAlerts now faces c in
  detections c' = detections c /\ faceHistory c' = faceHistory c /\
  confidence c' = confidence c /\ isMuted c' = isMuted c /\
  isStarted c' = isStarted c /\
  effects c' = effects c ++
    map (fun f => Speak (utteranceText f))
      (if isMuted c then [] else alertedFaces now (lastSpokenRef c) faces) /\
  lastSpokenRef c' =
    (if isMuted c then lastSpokenRef c else cellAfter now (lastSpokenRef c) faces).
Proof.
  cbv zeta. rewrite handleAudioAlerts_eq.
  destruct (isMuted c) eqn:E; simpl; rewrite ?app_nil_r; repeat split; auto.
Qed.

(** What a resolved detection leaves behind. *)
Lemma detectFaces_resume_fields (recognizedFaces : list RecognizedFace)
  (now : Z) (timestamp : string) (c : Component) :
  let kept := filterFaces (confidence c) recognizedFaces in
  let c' := detectFaces_resume recognizedFaces now timestamp c in
  detections c' = kept /\
  confidence c' = confidence c /\ isMuted c' = isMuted c /\
  isStarted c' = isStarted c /\
  effects c' = effects c ++ DrawFaces kept ::
    map (fun f => Speak (utteranceText f))
      (if isMuted c then [] else alertedFaces now (lastSpokenRef c) kept) /\
  lastSpokenRef c' =
    (if isMuted c then lastSpokenRef c else cellAfter now (lastSpokenRef c) kept) /\
  faceHistory c' =
    match kept with
    | [] => faceHistory c
    | _ :: _ => firstn 10 (map (historyEntry timestamp) kept ++ faceHistory c)
    end.
Proof.
  cbv zeta. unfold detectFaces_resume.
  set (kept := filterFaces (confidence c) recognizedFaces).
  set (c2 := drawFaces kept (setDetections kept c)).
  pose proof (handleAudioAlerts_fields now kept c2) as H. cbv zeta in H.
  destruct H as (Hd & Hh & Hc & Hm & Hs & He & Hl).
  assert (Hc2 : effects c2 = effects c ++ [DrawFaces kept]) by reflexivity.
  rewrite Hc2, <- app_assoc in He. simpl in He.
  destruct kept as [|f tl] eqn:Hk.
  - cbn [List.length Nat.ltb Nat.leb]. repeat split; assumption.
  - cbn [List.length Nat.ltb Nat.leb].
    unfold setFaceHistory. cbn.
    rewrite Hh. repeat split; assumption.
Qed.

(** ** C2: the confidence filter *)

(** C2.  Let a detection cycle resolve with [recognizedFaces] while the
    threshold is [t], any number (so in particular any [t] between 0 and
    1).  Every face of the rendered set [filterFaces t
    recognizedFaces] is one of the recognized faces and has a score of at
    least [t] (in fact strictly above it).  That set is what the cycle
    stores as the detections and hands to [drawFaces]; the faces announced
    are among it; and the history lines recorded are made of exactly its
    faces.  The set is monotone: raising the threshold to [t'] never adds
    a face. *)
Theorem C2_confidence_filter :
  forall (t : Q) (recognizedFaces : list RecognizedFace) (now : Z)
         (timestamp : string) (c : Component),
    confidence c = t ->
    let rendered := filterFaces t recognizedFaces in
    let c' := detectFaces_resume recognizedFaces now timestamp c in
    (forall face, In face rendered ->
       In face recognizedFaces /\ exists s, score face = Some s /\ t <= s) /\
    detections c' = rendered /\
    drawnFaces (effects c') = drawnFaces (effects c) ++ [rendered] /\
    (exists alerted,
        incl alerted rendered /\
        spokenTexts (effects c') =
          spokenTexts (effects c) ++ map utteranceText alerted) /\
    faceHistory c' =
      match rendered with
      | [] => faceHistory c
      | _ :: _ =>
          firstn 10 (map (historyEntry timestamp) rendered ++ faceHistory c)
      end /\
    (forall t', t <= t' ->
       incl (filterFaces t' recognizedFaces) rendered).
Proof.
  intros t recognizedFaces now timestamp c Ht rendered c'.
  pose proof (detectFaces_resume_fields recognizedFaces now timestamp c) as H.
  cbv zeta in H. rewrite Ht in H. fold rendered in H. fold c' in H.
  destruct H as (Hd & _ & _ & _ & He & _ & Hh).
  split; [|split; [exact Hd|split; [|split; [|split]]]].
  - intros face Hin. unfold rendered, filterFaces in Hin.
    apply filter_In in Hin. destruct Hin as [Hin Hpass].
    split; [exact Hin|].
    apply passesConfidence_iff in Hpass. destruct Hpass as (s & Hs & _ & Hlt).
    exists s. split; [exact Hs | apply Qlt_le_weak; exact Hlt].
  - rewrite He, drawnFaces_app. simpl. rewrite drawnFaces_Speak. reflexivity.
  - exists (if isMuted c then [] else alertedFaces now (lastSpokenRef c) rendered).
    split.
    + destruct (isMuted c); [intros ? []|apply alertedFaces_incl].
    + rewrite He, spokenTexts_app. simpl. rewrite spokenTexts_Speak. reflexivity.
  - exact Hh.
  - intros t' Hle face Hin. unfold rendered, filterFaces in *.
    apply filter_In in Hin. destruct Hin as [Hin Hpass].
    apply filter_In. split; [exact Hin|].
    eapply passesConfidence_mono; eassumption.
Qed.

(** At the threshold 1/2 a cycle that recognizes ASHAL at 0.9 and a
    stranger at 0.3 renders ASHAL only; at the threshold 1/4 both are
    rendered, so the set at 1/2 is included in the set at 1/4. *)
Lemma C2_confidence_filter_witness :
  filterFaces (1 # 2) [ashalFace; strangerFace] = [ashalFace] /\
  detections (detectFaces_resume [ashalFace; strangerFace] 1000000 "10:00:00"
                initialComponent) = [ashalFace] /\
  incl (filterFaces (1 # 2) [ashalFace; strangerFace])
       (filterFaces (1 # 4) [ashalFace; strangerFace]).
Proof.
  split; [reflexivity|]. split.
  - exact (proj1 (proj2 (C2_confidence_filter (1 # 2) [ashalFace; strangerFace]
                           1000000 "10:00:00" initialComponent eq_refl))).
  - assert (Hle : (1 # 4) <= (1 # 2)) by (vm_compute; discriminate).
    pose proof (C2_confidence_filter (1 # 4) [ashalFace; strangerFace]
                  1000000 "10:00:00" (setConfidence (1 # 4) initialComponent)
                  eq_refl) as H.
    cbv zeta in H.
    exact (proj2 (proj2 (proj2 (proj2 (proj2 H)))) (1 # 2) Hle).
Defined.

(** ** C9: detection-only mode renders nothing *)

(** No fallback entry passes the confidence filter. *)
Lemma filterFaces_basic (t : Q) (ds : list Detection) :
  filterFaces t (map basicFace ds) = [].
Proof.
  induction ds as [|d tl IH]; [reflexivity|]. simpl. exact IH.
Qed.

(** A cycle that resolves with no face above the threshold clears the
    detections, repaints without faces, and leaves the history and the
    last-spoken cell alone. *)
Lemma detectFaces_resume_nothing (recognizedFaces : list RecognizedFace)
  (now : Z) (timestamp : string) (c : Component) :
  filterFaces (confidence c) recognizedFaces = [] ->
  let c' := detectFaces_resume recognizedFaces now timestamp c in
  detections c' = [] /\
  effects c' = effects c ++ [DrawFaces []] /\
  faceHistory c' = faceHistory c /\
  lastSpokenRef c' = lastSpokenRef c.
Proof.
  intros Hnone c'.
  pose proof (detectFaces_resume_fields recognizedFaces now timestamp c) as H.
  cbv zeta in H. fold c' in H. rewrite Hnone in H.
  destruct H as (Hd & _ & _ & _ & He & Hl & Hh).
  destruct (isMuted c); simpl in He, Hl; auto.
Qed.

(** C9.  Without a matcher the older service returns no face at all, and
    the current service returns only fallback entries, named "Face
    Detected", of category unknown and without a score.  In both cases,
    for every frame and every threshold, none of them passes the filter of
    [detectFaces]: the cycle stores the empty detection set, calls
    [drawFaces] with no face, announces nothing, and leaves the history
    and the last-spoken cell as they were. *)
Theorem C9_detection_only_renders_nothing :
  forall (dist : Descriptor -> Descriptor -> Q) (faces : list KnownFace)
         (frame : Frame) (now : Z) (timestamp : string) (c : Component),
    let current := recognizeFaces dist faces None frame in
    let older := recognizeFaces_old dist faces None frame in
    older = [] /\
    Forall (fun f => name f = "Face Detected" /\ category f = unknown /\
                     score f = None) current /\
    List.length current =
      match fr_basic frame with
      | Returned ds => List.length ds
      | Threw => 0%nat
      end /\
    filterFaces (confidence c) current = [] /\
    (forall recognized, recognized = current \/ recognized = older ->
       let c' := detectFaces_resume recognized now timestamp c in
       detections c' = [] /\
       effects c' = effects c ++ [DrawFaces []] /\
       spokenTexts (effects c') = spokenTexts (effects c) /\
       faceHistory c' = faceHistory c /\
       lastSpokenRef c' = lastSpokenRef c).
Proof.
  intros dist faces frame now timestamp c current older.
  assert (Hold : older = []) by reflexivity.
  assert (Hcur : filterFaces (confidence c) current = []).
  { unfold current, recognizeFaces. destruct (fr_basic frame) as [ds|].
    - apply filterFaces_basic.
    - reflexivity. }
  split; [exact Hold|]. split; [|split; [|split; [exact Hcur|]]].
  - unfold current, recognizeFaces. destruct (fr_basic frame) as [ds|].
    + apply Forall_forall. intros f Hin. apply in_map_iff in Hin.
      destruct Hin as (d & <- & _). repeat split.
    + constructor.
  - unfold current, recognizeFaces. destruct (fr_basic frame) as [ds|].
    + apply length_map.
    + reflexivity.
  - intros recognized Hrec c'.
    assert (Hnone : filterFaces (confidence c) recognized = []).
    { destruct Hrec as [-> | ->]; [exact Hcur | rewrite Hold; reflexivity]. }
    destruct (detectFaces_resume_nothing recognized now timestamp c Hnone)
      as (Hd & He & Hh & Hl).
    fold c' in Hd, He, Hh, Hl. repeat split; try assumption.
    rewrite He, spokenTexts_app. simpl. apply app_nil_r.
Qed.

(** Three faces in front of the camera and no matcher: the current service
    reports three fallback entries, and the cycle still renders none. *)
Lemma C9_detection_only_renders_nothing_witness :
  List.length
    (recognizeFaces lineDistance knownFaces None
       (mkFrame (Returned [mkDet sampleBox "1-a"; mkDet sampleBox "2-b";
                           mkDet sampleBox "3-c"]) Threw)) = 3%nat /\
  detections
    (detectFaces_resume
       (recognizeFaces lineDistance knownFaces None
          (mkFrame (Returned [mkDet sampleBox "1-a"; mkDet sampleBox "2-b";
                              mkDet sampleBox "3-c"]) Threw))
       1000000 "10:00:00" initialComponent) = [].
Proof.
  pose proof (C9_detection_only_renders_nothing lineDistance knownFaces
                (mkFrame (Returned [mkDet sampleBox "1-a"; mkDet sampleBox "2-b";
                                    mkDet sampleBox "3-c"]) Threw)
                1000000 "10:00:00" initialComponent) as H.
  cbv zeta in H. destruct H as (_ & _ & Hlen & _ & Hrun).
  split; [exact Hlen|].
  exact (proj1 (Hrun _ (or_introl eq_refl))).
Defined.

(** ** C6: the history cap *)

Lemma firstn_app_firstn {A : Type} (l1 l2 : list A) :
  forall n m : nat, (n <= m)%nat ->
    firstn n (l1 ++ firstn m l2) = firstn n (l1 ++ l2).
Proof.
  induction l1 as [|a l1 IH]; intros n m Hle; simpl.
  - rewrite firstn_firstn. now rewrite Nat.min_l.
  - destruct n as [|n]; [reflexivity|]. simpl. f_equal. apply IH. lia.
Qed.

Lemma concat_length_ge {A : Type} (ls : list (list A)) :
  Forall (fun l => l <> []) ls ->
  (List.length ls <= List.length (List.concat ls))%nat.
Proof.
  induction 1 as [|l ls Hl _ IH]; simpl; [lia|].
  rewrite length_app. destruct l; [contradiction|]. simpl. lia.
Qed.

(** A capped history fed newest-first.  [step] is one detection cycle,
    [hist] reads the history, [entries] gives the lines a cycle adds, and
    [inv] is what the cycles leave unchanged. *)
Section HistoryFold.

Variables (St Cy : Type).
Variable hist : St -> list string.
Variable cycle : St -> Cy -> St.
Variable entries : Cy -> list string.
Variable inv : St -> Prop.

Hypothesis inv_cycle : forall s cy, inv s -> inv (cycle s cy).
Hypothesis hist_cycle : forall s cy, inv s ->
  hist (cycle s cy) =
    match entries cy with
    | [] => hist s
    | _ :: _ => firstn 10 (entries cy ++ hist s)
    end.

Lemma hist_cycle_capped (s : St) (cy : Cy) :
  inv s -> (List.length (hist s) <= 10)%nat ->
  hist (cycle s cy) = firstn 10 (entries cy ++ hist s).
Proof.
  intros Hinv Hlen. rewrite hist_cycle by exact Hinv.
  destruct (entries cy); [|reflexivity].
  rewrite app_nil_l. symmetry. apply firstn_all2. exact Hlen.
Qed.

Lemma hist_fold (cycles : list Cy) :
  forall s, inv s -> (List.length (hist s) <= 10)%nat ->
    hist (fold_left cycle cycles s) =
      firstn 10 (List.concat (map entries (rev cycles)) ++ hist s).
Proof.
  induction cycles as [|cy tl IH]; intros s Hinv Hlen.
  - cbn [fold_left rev map List.concat app].
    symmetry. apply firstn_all2. exact Hlen.
  - cbn [fold_left]. rewrite IH.
    + rewrite (hist_cycle_capped s cy Hinv Hlen).
      rewrite firstn_app_firstn by lia.
      cbn [rev]. rewrite map_app, concat_app.
      cbn [map List.concat]. rewrite app_nil_r, <- app_assoc. reflexivity.
    + apply inv_cycle. exact Hinv.
    + rewrite (hist_cycle_capped s cy Hinv Hlen). rewrite length_firstn. lia.
Qed.

Lemma hist_fold_full (cycles : list Cy) (s : St) :
  inv s -> (List.length (hist s) <= 10)%nat ->
  Forall (fun cy => entries cy <> []) cycles ->
  (10 < List.length cycles)%nat ->
  hist (fold_left cycle cycles s) =
    firstn 10 (List.concat (map entries (rev cycles))) /\
  List.length (hist (fold_left cycle cycles s)) = 10%nat.
Proof.
  intros Hinv Hlen Hall Hmany.
  assert (Hbig : (10 <= List.length (List.concat (map entries (rev cycles))))%nat).
  { etransitivity; [|apply concat_length_ge].
    - rewrite length_map, length_rev. lia.
    - apply Forall_map. apply Forall_rev. exact Hall. }
  rewrite (hist_fold cycles s Hinv Hlen).
  rewrite firstn_app.
  replace (10 - List.length (List.concat (map entries (rev cycles))))%nat
    with 0%nat by lia.
  rewrite firstn_O, app_nil_r. split; [reflexivity|].
  rewrite length_firstn. lia.
Qed.

End HistoryFold.

(** The alert of the older component leaves the history alone. *)
Lemma Detr_handleAudioAlerts_history (now : Z) (faces : list Detr.Detection)
  (c : Detr.Component) :
  Detr.faceHistory (Detr.handleAudioAlerts now faces c) = Detr.faceHistory c.
Proof.
  unfold Detr.handleAudioAlerts.
  destruct (Detr.isMuted c || Nat.eqb (List.length faces) 0); [reflexivity|].
  destruct (_ && _); reflexivity.
Qed.

Lemma Detr_mapi_length {A B : Type} (f : nat -> A -> B) (l : list A) :
  forall i, List.length (Detr.mapi f i l) = List.length l.
Proof.
  induction l as [|a l IH]; intro i; simpl; [reflexivity|]. now rewrite IH.
Qed.

Lemma runCycle_history (t : Q) (c : Component) (cy : Cycle) :
  confidence c = t ->
  faceHistory (runCycle c cy) =
    match cycleEntries t cy with
    | [] => faceHistory c
    | _ :: _ => firstn 10 (cycleEntries t cy ++ faceHistory c)
    end.
Proof.
  intro Ht. unfold runCycle, cycleEntries.
  pose proof (detectFaces_resume_fields (cy_recognized cy) (cy_now cy)
                (cy_timestamp cy) c) as H.
  cbv zeta in H. rewrite Ht in H.
  destruct H as (_ & _ & _ & _ & _ & _ & Hh). rewrite Hh.
  destruct (filterFaces t (cy_recognized cy)); reflexivity.
Qed.

Lemma runCycle_confidence (t : Q) (c : Component) (cy : Cycle) :
  confidence c = t -> confidence (runCycle c cy) = t.
Proof.
  intro Ht. unfold runCycle.
  pose proof (detectFaces_resume_fields (cy_recognized cy) (cy_now cy)
                (cy_timestamp cy) c) as H.
  cbv zeta in H. destruct H as (_ & Hc & _). congruence.
Qed.

Lemma runDetrCycle_history (c : Detr.Component) (cy : DetrCycle) :
  True ->
  Detr.faceHistory (runDetrCycle c cy) =
    match detrEntries cy with
    | [] => Detr.faceHistory c
    | _ :: _ => firstn 10 (detrEntries cy ++ Detr.faceHistory c)
    end.
Proof.
  intros _. unfold runDetrCycle, Detr.detectFaces_resume, detrEntries, detrPersons.
  destruct (filter (fun d => (Detr.raw_label d =? "person")%string) (dc_results cy))
    as [|p tl].
  - cbn [Detr.mapi List.length Nat.ltb Nat.leb].
    rewrite Detr_handleAudioAlerts_history. reflexivity.
  - cbn [Detr.mapi List.length Nat.ltb Nat.leb Detr.faceHistory].
    rewrite Detr_handleAudioAlerts_history. reflexivity.
Qed.

(** C6.  For the component as for its older snapshot: starting from a
    history of at most 10 lines (the initial one is empty), after any
    sequence of detection cycles the history is the first 10 lines of all
    lines recorded, the lines of the newest cycle first, followed by the
    old history; so every update keeps it at 10 lines at most and
    newest-first.  After more than 10 cycles that each yield at least one
    face it holds exactly 10 lines, the 10 most recent ones, newest
    first. *)
Theorem C6_history_cap :
  (forall (c : Component) (cycles : list Cycle),
      (List.length (faceHistory c) <= 10)%nat ->
      let t := confidence c in
      let c' := runCycles c cycles in
      faceHistory c' =
        firstn 10 (List.concat (map (cycleEntries t) (rev cycles)) ++ faceHistory c) /\
      (List.length (faceHistory c') <= 10)%nat /\
      (Forall (fun cy => filterFaces t (cy_recognized cy) <> []) cycles ->
       (10 < List.length cycles)%nat ->
       faceHistory c' = firstn 10 (List.concat (map (cycleEntries t) (rev cycles))) /\
       List.length (faceHistory c') = 10%nat)) /\
  (forall (c : Detr.Component) (cycles : list DetrCycle),
      (List.length (Detr.faceHistory c) <= 10)%nat ->
      let c' := fold_left runDetrCycle cycles c in
      Detr.faceHistory c' =
        firstn 10 (List.concat (map detrEntries (rev cycles)) ++ Detr.faceHistory c) /\
      (List.length (Detr.faceHistory c') <= 10)%nat /\
      (Forall (fun cy => detrPersons cy <> []) cycles ->
       (10 < List.length cycles)%nat ->
       Detr.faceHistory c' = firstn 10 (List.concat (map detrEntries (rev cycles))) /\
       List.length (Detr.faceHistory c') = 10%nat)).
Proof.
  split.
  - intros c cycles Hlen t c'.
    pose proof (hist_fold Component Cycle faceHistory runCycle (cycleEntries t)
                  (fun s => confidence s = t)
                  (runCycle_confidence t) (runCycle_history t)
                  cycles c eq_refl Hlen) as Hfold.
    fold (runCycles c cycles) in Hfold. fold c' in Hfold.
    split; [exact Hfold|]. split.
    + rewrite Hfold, length_firstn. lia.
    + intros Hall Hmany.
      apply (hist_fold_full Component Cycle faceHistory runCycle
               (cycleEntries t) (fun s => confidence s = t)
               (runCycle_confidence t) (runCycle_history t)
               cycles c eq_refl Hlen); [|exact Hmany].
      eapply Forall_impl; [|exact Hall].
      intros cy Hne Heq. apply Hne. unfold cycleEntries in Heq.
      apply map_eq_nil in Heq. exact Heq.
  - intros c cycles Hlen c'.
    pose proof (hist_fold Detr.Component DetrCycle Detr.faceHistory runDetrCycle
                  detrEntries (fun _ => True) (fun _ _ _ => I)
                  runDetrCycle_history cycles c I Hlen) as Hfold.
    fold c' in Hfold.
    split; [exact Hfold|]. split.
    + rewrite Hfold, length_firstn. lia.
    + intros Hall Hmany.
      apply (hist_fold_full Detr.Component DetrCycle Detr.faceHistory
               runDetrCycle detrEntries (fun _ => True) (fun _ _ _ => I)
               runDetrCycle_history cycles c I Hlen); [|exact Hmany].
      eapply Forall_impl; [|exact Hall].
      intros cy Hne Heq. apply Hne. unfold detrEntries in Heq.
      destruct (detrPersons cy); [reflexivity|discriminate].
Qed.

(** Twelve cycles that each show ASHAL (and a stranger below the
    threshold): the history ends with exactly the lines of the last ten
    cycles, newest first. *)
Lemma C6_history_cap_witness :
  faceHistory (runCycles initialComponent (map sampleCycle (seq 0 12))) =
    firstn 10
      (List.concat (map (cycleEntries (1 # 2))
                      (rev (map sampleCycle (seq 0 12))))) /\
  List.length
    (faceHistory (runCycles initialComponent (map sampleCycle (seq 0 12))))
    = 10%nat.
Proof.
  assert (Hlen : (List.length (faceHistory initialComponent) <= 10)%nat)
    by (simpl; lia).
  assert (Hall : Forall (fun cy => filterFaces (confidence initialComponent)
                                     (cy_recognized cy) <> [])
                   (map sampleCycle (seq 0 12))).
  { apply Forall_forall. intros cy Hin. apply in_map_iff in Hin.
    destruct Hin as (n & <- & _). intro H. vm_compute in H. discriminate. }
  assert (Hmany : (10 < List.length (map sampleCycle (seq 0 12)))%nat)
    by (simpl; lia).
  exact (proj2 (proj2 (proj1 C6_history_cap initialComponent
                         (map sampleCycle (seq 0 12)) Hlen)) Hall Hmany).
Defined.

(** ** C5: the debounce of spoken alerts *)

(** The older component: a cycle without faces, or while muted, says
    nothing and keeps the cell. *)
Lemma Detr_handleAudioAlerts_spoken (now : Z) (faces : list Detr.Detection)
  (c : Detr.Component) :
  Detr.isMuted c = false -> faces <> [] ->
  let c' := Detr.handleAudioAlerts now faces c in
  let text := if Nat.eqb (List.length faces) 1 then "Face detected."
              else Detr.decimal (List.length faces) +++ " faces detected." in
  if String.eqb (ls_label (Detr.lastSpokenRef c)) "Face"
     && (now - ls_time (Detr.lastSpokenRef c) <? 5000)%Z
  then c' = c
  else Detr.spoken c' = Detr.spoken c ++ [text] /\
       Detr.lastSpokenRef c' = mkSpoken "Face" now /\
       Detr.isMuted c' = false.
Proof.
  intros Hm Hne. cbv zeta. unfold Detr.handleAudioAlerts. rewrite Hm.
  destruct faces as [|f [|g tl]]; [contradiction| |];
    cbn [orb List.length Nat.eqb Nat.ltb Nat.leb];
    destruct (_ && _); auto.
Qed.

(** C5, as the code has it.  Audio is unmuted.
    (1) The cell decides alone: a face is passed over exactly when the
    last-spoken cell holds its name and less than 5000 ms have gone by
    since the cell's time; otherwise its phrase is spoken and the cell
    becomes that name with the current time.
    (2) Two detections with the same label handled one directly after the
    other, the first of which is spoken at [t1]: when the second comes less
    than 5000 ms after [t1], exactly one alert is spoken for the two; when
    it comes 5000 ms or more after [t1], two are.
    (3) The same for two successive cycles with faces of the older
    component, whose label is always "Face". *)
Theorem C5_single_cell_debounce :
  (forall (c : Component) (face : RecognizedFace) (now : Z),
      let c' := alertFace now c face in
      (suppressed now (lastSpokenRef c) face = true -> c' = c) /\
      (suppressed now (lastSpokenRef c) face = false ->
       effects c' = effects c ++ [Speak (utteranceText face)] /\
       lastSpokenRef c' = mkSpoken (name face) now)) /\
  (forall (c : Component) (f1 f2 : RecognizedFace) (t1 t2 : Z),
      isMuted c = false ->
      name f1 = name f2 ->
      suppressed t1 (lastSpokenRef c) f1 = false ->
      let c1 := handleAudioAlerts t1 [f1] c in
      let c2 := handleAudioAlerts t2 [f2] c1 in
      spokenTexts (effects c1) = spokenTexts (effects c) ++ [utteranceText f1] /\
      lastSpokenRef c1 = mkSpoken (name f1) t1 /\
      ((t2 - t1 < 5000)%Z ->
       spokenTexts (effects c2) = spokenTexts (effects c) ++ [utteranceText f1] /\
       lastSpokenRef c2 = mkSpoken (name f1) t1) /\
      ((5000 <= t2 - t1)%Z ->
       spokenTexts (effects c2) =
         spokenTexts (effects c) ++ [utteranceText f1; utteranceText f2] /\
       lastSpokenRef c2 = mkSpoken (name f2) t2)) /\
  (forall (c : Detr.Component) (faces1 faces2 : list Detr.Detection) (t1 t2 : Z),
      Detr.isMuted c = false ->
      faces1 <> [] -> faces2 <> [] ->
      (String.eqb (ls_label (Detr.lastSpokenRef c)) "Face"
       && (t1 - ls_time (Detr.lastSpokenRef c) <? 5000)%Z) = false ->
      let c1 := Detr.handleAudioAlerts t1 faces1 c in
      let c2 := Detr.handleAudioAlerts t2 faces2 c1 in
      List.length (Detr.spoken c1) = S (List.length (Detr.spoken c)) /\
      ((t2 - t1 < 5000)%Z ->
       List.length (Detr.spoken c2) = S (List.length (Detr.spoken c))) /\
      ((5000 <= t2 - t1)%Z ->
       List.length (Detr.spoken c2) =
         S (S (List.length (Detr.spoken c))))).
Proof.
  split; [|split].
  - intros c face now c'. unfold c', alertFace.
    fold (suppressed now (lastSpokenRef c) face).
    split; intro H; rewrite H; [reflexivity|]. split; reflexivity.
  - intros c f1 f2 t1 t2 Hm Hname Hfirst c1 c2.
    pose proof (handleAudioAlerts_fields t1 [f1] c) as H1. cbv zeta in H1.
    fold c1 in H1. rewrite Hm in H1. cbn [alertedFaces cellAfter] in H1.
    rewrite Hfirst in H1. destruct H1 as (_ & _ & _ & Hm1 & _ & He1 & Hl1).
    pose proof (handleAudioAlerts_fields t2 [f2] c1) as H2. cbv zeta in H2.
    fold c2 in H2. rewrite Hm1, Hl1 in H2. cbn [alertedFaces cellAfter] in H2.
    destruct H2 as (_ & _ & _ & _ & _ & He2 & Hl2).
    assert (Hs : suppressed t2 (mkSpoken (name f1) t1) f2 = (t2 - t1 <? 5000)%Z).
    { unfold suppressed. cbn [ls_label ls_time]. rewrite Hname.
      rewrite String.eqb_refl. reflexivity. }
    rewrite Hs in He2, Hl2.
    split; [rewrite He1, spokenTexts_app; reflexivity|].
    split; [exact Hl1|]. split; intro Ht.
    + apply Z.ltb_lt in Ht. rewrite Ht in He2, Hl2. split; [|exact Hl2].
      rewrite He2, He1, !spokenTexts_app. simpl. rewrite app_nil_r. reflexivity.
    + assert (Hf : (t2 - t1 <? 5000)%Z = false) by (apply Z.ltb_ge; exact Ht).
      rewrite Hf in He2, Hl2. split; [|exact Hl2].
      rewrite He2, He1, !spokenTexts_app. simpl. rewrite <- app_assoc. reflexivity.
  - intros c faces1 faces2 t1 t2 Hm Hne1 Hne2 Hfirst c1 c2.
    pose proof (Detr_handleAudioAlerts_spoken t1 faces1 c Hm Hne1) as H1.
    cbv zeta in H1. fold c1 in H1. rewrite Hfirst in H1.
    destruct H1 as (Hs1 & Hl1 & Hm1).
    pose proof (Detr_handleAudioAlerts_spoken t2 faces2 c1 Hm1 Hne2) as H2.
    cbv zeta in H2. fold c2 in H2. rewrite Hl1 in H2.
    cbn [ls_label ls_time String.eqb Ascii.eqb Bool.eqb andb] in H2.
    split; [rewrite Hs1, length_app; simpl; lia|]. split; intro Ht.
    + apply Z.ltb_lt in Ht. rewrite Ht in H2. rewrite H2.
      rewrite Hs1, length_app. simpl. lia.
    + assert (Hf : (t2 - t1 <? 5000)%Z = false) by (apply Z.ltb_ge; exact Ht).
      rewrite Hf in H2. destruct H2 as (Hs2 & _).
      rewrite Hs2, Hs1, !length_app. simpl. lia.
Qed.

(** ASHAL seen twice, starting from the initial cell: 500 ms apart the
    greeting is spoken once, 6000 ms apart twice. *)
Lemma C5_single_cell_debounce_witness :
  spokenTexts
    (effects (handleAudioAlerts 1000500 [ashalFace]
                (handleAudioAlerts 1000000 [ashalFace] initialComponent)))
    = ["Hello ASHAL, welcome back!"] /\
  spokenTexts
    (effects (handleAudioAlerts 1006000 [ashalFace]
                (handleAudioAlerts 1000000 [ashalFace] initialComponent)))
    = ["Hello ASHAL, welcome back!"; "Hello ASHAL, welcome back!"].
Proof.
  split.
  - pose proof (proj1 (proj2 C5_single_cell_debounce) initialComponent
                  ashalFace ashalFace 1000000%Z 1000500%Z
                  eq_refl eq_refl eq_refl) as H.
    cbv zeta in H. destruct H as (_ & _ & Hnear & _).
    exact (proj1 (Hnear eq_refl)).
  - pose proof (proj1 (proj2 C5_single_cell_debounce) initialComponent
                  ashalFace ashalFace 1000000%Z 1006000%Z
                  eq_refl eq_refl eq_refl) as H.
    cbv zeta in H. destruct H as (_ & _ & _ & Hfar).
    apply Hfar. vm_compute. discriminate.
Defined.

(** C5 fails as stated: ASHAL and Tom Cruise stand in front of the camera
    for two cycles 500 ms apart, audio unmuted.  The two detections of
    ASHAL are 500 ms apart and both are announced (and so are both
    detections of Tom Cruise): the single cell holds "Tom Cruise" when
    ASHAL comes up again. *)
Lemma C5_counterexample :
  spokenTexts
    (effects (runCycles initialComponent
                [mkCycle [ashalFace; tomFace] 1000000 "10:00:00";
                 mkCycle [ashalFace; tomFace] 1000500 "10:00:00"]))
  = ["Hello ASHAL, welcome back!"; "Celebrity detected: Tom Cruise";
     "Hello ASHAL, welcome back!"; "Celebrity detected: Tom Cruise"].
Proof. vm_compute. reflexivity. Qed.

(** ** C1: a detection that resolves after the camera was stopped *)

Lemma painted_app (a b : list Effect) :
  painted (a ++ b) = painted a ++ painted b.
Proof.
  induction a as [|e a IH]; [reflexivity|].
  destruct e; simpl; rewrite IH; reflexivity.
Qed.


Lemma pick_nil {A : Type} (k : nat) : pick k (@nil A) = None.
Proof. destruct k; reflexivity. Qed.

(** The element picked and the rest keep what held of the whole list. *)
Lemma pick_Forall {A : Type} (P : A -> Prop) (k : nat) :
  forall (l : list A) (x : A) (rest : list A),
    pick k l = Some (x, rest) -> Forall P l -> P x /\ Forall P rest.
Proof.
  induction k as [|k IH]; intros l x rest Hpick Hall.
  - destruct l as [|y tl]; [discriminate|].
    injection Hpick as Hx Hrest. subst. inversion Hall. split; assumption.
  - destruct l as [|y tl]; [discriminate|]. simpl in Hpick.
    destruct (pick k tl) as [[z r]|] eqn:E; [|discriminate].
    injection Hpick as Hx Hrest. subst. inversion Hall as [|? ? Hy Htl]. subst.
    destruct (IH tl x r E Htl) as [Hpx Hr].
    split; [exact Hpx | constructor; assumption].
Qed.

(** [stopCamera] leaves the threshold, the mute switch and the cell as
    they are, and paints and says nothing. *)
Lemma stopCamera_fields (c : Component) :
  let c' := stopCamera c in
  isStarted c' = false /\ detections c' = [] /\
  detectionIntervalRef c' = None /\
  confidence c' = confidence c /\ isMuted c' = isMuted c /\
  lastSpokenRef c' = lastSpokenRef c /\ faceHistory c' = faceHistory c /\
  painted (effects c') = painted (effects c) /\
  spokenTexts (effects c') = spokenTexts (effects c) /\
  drawnFaces (effects c') = drawnFaces (effects c).
Proof.
  destruct c as [d st mu ml cf fh iv ls vr cr so cx ef].
  unfold stopCamera, clearDetectionInterval. cbn.
  destruct (vr && so); destruct iv; cbn;
    rewrite ?painted_app, ?spokenTexts_app, ?drawnFaces_app; cbn;
    rewrite ?painted_app, ?spokenTexts_app, ?drawnFaces_app; cbn;
    rewrite ?painted_app, ?spokenTexts_app, ?drawnFaces_app; cbn;
    rewrite ?app_nil_r; repeat split; reflexivity.
Qed.

(** What the continuation of a [detectFaces] made by the render [seen]
    leaves behind. *)
Lemma detectFaces_settle_fields (seen : Render)
  (recognizedFaces : list RecognizedFace) (now : Z) (timestamp : string)
  (c : Component) :
  let kept := filterFaces (seenConfidence seen) recognizedFaces in
  let c' := detectFaces_settle seen recognizedFaces now timestamp c in
  detections c' = kept /\
  confidence c' = confidence c /\ isMuted c' = isMuted c /\
  isStarted c' = isStarted c /\
  detectionIntervalRef c' = detectionIntervalRef c /\
  effects c' = effects c ++ DrawFaces kept ::
    map (fun f => Speak (utteranceText f))
      (if seenMuted seen then [] else alertedFaces now (lastSpokenRef c) kept).
Proof.
  cbv zeta. unfold detectFaces_settle.
  set (asSeen := setIsMuted (fun _ => seenMuted seen)
                   (setConfidence (seenConfidence seen) c)).
  pose proof (detectFaces_resume_fields recognizedFaces now timestamp asSeen) as H.
  cbv zeta in H. destruct H as (Hd & _ & _ & Hs & He & _).
  assert (Hi : detectionIntervalRef
                 (detectFaces_resume recognizedFaces now timestamp asSeen) =
               detectionIntervalRef asSeen).
  { unfold detectFaces_resume. rewrite handleAudioAlerts_eq.
    destruct (Nat.ltb 0 _); cbn [drawFaces setDetections emit isMuted];
      destruct (isMuted asSeen); reflexivity. }
  cbn [setIsMuted setConfidence detections confidence isMuted isStarted
       detectionIntervalRef effects].
  rewrite Hd, Hs, Hi, He. repeat split.
Qed.

(** The continuation does not read [isStarted]: were a call in flight
    when [stopCamera] runs, its result would be stored and handed to
    [drawFaces] all the same. *)
Lemma detectFaces_settle_after_stop (seen : Render)
  (recognizedFaces : list RecognizedFace) (now : Z) (timestamp : string)
  (c : Component) :
  let kept := filterFaces (seenConfidence seen) recognizedFaces in
  let c' := detectFaces_settle seen recognizedFaces now timestamp (stopCamera c) in
  isStarted c' = false /\ detections c' = kept /\
  drawnFaces (effects c') = drawnFaces (effects c) ++ [kept].
Proof.
  cbv zeta.
  pose proof (detectFaces_settle_fields seen recognizedFaces now timestamp
                (stopCamera c)) as H.
  cbv zeta in H. destruct H as (Hd & _ & _ & Hs & _ & He).
  pose proof (stopCamera_fields c) as Hstop. cbv zeta in Hstop.
  destruct Hstop as (Hst & _ & _ & _ & _ & _ & _ & _ & _ & Hdr).
  rewrite Hd, Hs, He, Hst. split; [reflexivity|]. split; [reflexivity|].
  rewrite drawnFaces_app, Hdr. cbn [drawnFaces]. f_equal. f_equal.
  generalize (if seenMuted seen then []
              else alertedFaces now (lastSpokenRef (stopCamera c))
                     (filterFaces (seenConfidence seen) recognizedFaces)).
  intro l. induction l as [|f tl IH]; [reflexivity | exact IH].
Qed.

(** A [detectFaces] made by a render that saw the camera stopped returns
    at its first line. *)
Lemma detectFaces_begin_stale (seen : Render) (c : Component) :
  seenStarted seen = false -> detectFaces_begin seen c = None.
Proof.
  intro H. unfold detectFaces_begin. rewrite H.
  cbn [negb]. rewrite orb_true_r. reflexivity.
Qed.

Lemma neverDetected_initial : neverDetected initialWorld.
Proof.
  unfold neverDetected, sawStopped. cbn.
  repeat split; try reflexivity; constructor.
Qed.

(** No event makes the page detect. *)
Lemma neverDetected_step (w : World) (e : Event) :
  neverDetected w -> neverDetected (step w e).
Proof.
  intros (Hs & Hp & Ht & Hi & Hd & Hh & Hpa & Hsp).
  destruct w as [c aS aP tS fl].
  cbn [comp awaitingStream awaitingPlay timerSees inflight] in *. subst fl.
  assert (Hw : neverDetected (mkWorld c aS aP tS [])).
  { unfold neverDetected. cbn [comp awaitingStream awaitingPlay timerSees inflight].
    repeat split; assumption. }
  destruct e as [|k granted|k played handle| |k rf now ts| |v];
    unfold step; cbn [comp awaitingStream awaitingPlay timerSees inflight].
  - (* the main button *)
    destruct (isModelLoading c); [exact Hw|].
    destruct (isStarted c) eqn:Est.
    + pose proof (stopCamera_fields c) as H. cbv zeta in H.
      destruct H as (_ & Hd' & _ & _ & _ & _ & Hh' & Hpa' & Hsp' & _).
      unfold neverDetected.
      cbn [comp awaitingStream awaitingPlay timerSees inflight].
      rewrite Hd', Hh', Hpa', Hsp'. repeat split; assumption.
    + unfold neverDetected.
      cbn [comp awaitingStream awaitingPlay timerSees inflight].
      repeat split; try assumption.
      unfold sawStopped. apply Forall_app. split; [exact Hs|].
      constructor; [exact Est | constructor].
  - (* getUserMedia settles *)
    destruct (pick k aS) as [[seen rest]|] eqn:Epick; [|exact Hw].
    destruct (pick_Forall _ k aS seen rest Epick Hs) as [Hseen Hrest].
    unfold startCamera_stream, neverDetected.
    destruct granted; [destruct (videoRef c)|];
      cbn [comp awaitingStream awaitingPlay timerSees inflight
           setSrcObject emit detections faceHistory effects];
      rewrite ?painted_app, ?spokenTexts_app; cbn [painted spokenTexts];
      rewrite ?app_nil_r; repeat split; try assumption.
    unfold sawStopped. apply Forall_app. split; [exact Hp|].
    constructor; [exact Hseen | constructor].
  - (* play() settles *)
    destruct (pick k aP) as [[seen rest]|] eqn:Epick; [|exact Hw].
    destruct (pick_Forall _ k aP seen rest Epick Hp) as [Hseen Hrest].
    unfold startCamera_play, startDetectionLoop, clearDetectionInterval,
      neverDetected.
    destruct c as [d st mu ml cf fh iv ls vr cr so cx ef]. cbn in *.
    destruct played; [destruct iv|]; cbn;
      rewrite ?painted_app, ?spokenTexts_app; cbn;
      rewrite ?painted_app, ?spokenTexts_app; cbn;
      rewrite ?app_nil_r; repeat split; assumption.
  - (* a tick *)
    rewrite (detectFaces_begin_stale tS c Ht).
    destruct (detectionIntervalRef c); exact Hw.
  - (* a detection resolves: none is in flight *)
    rewrite pick_nil. exact Hw.
  - (* the mute switch *)
    unfold toggleMute, neverDetected.
    destruct c as [d st mu ml cf fh iv ls vr cr so cx ef]. cbn in *.
    rewrite painted_app, spokenTexts_app. cbn. rewrite !app_nil_r.
    repeat split; assumption.
  - (* the slider *)
    unfold neverDetected. cbn. repeat split; assumption.
Qed.

Lemma neverDetected_run (es : list Event) :
  forall w, neverDetected w -> neverDetected (run w es).
Proof.
  induction es as [|e es IH]; intros w Hw; [exact Hw|].
  apply (IH (step w e)). apply neverDetected_step. exact Hw.
Qed.



(** ** C7 and C4: loading the reference faces *)

(** The loop of [loadReferenceFaces] handles every identity on its own:
    it appends the descriptor of each identity whose image gave one, and
    one console line per identity. *)
Lemma loadOne_fold (probe : KnownFace -> RefOutcome) (faces : list KnownFace) :
  forall (lds : list LabeledFaceDescriptors) (logs : list LogEntry),
    fold_left (loadOne probe) faces (lds, logs) =
    (lds ++ successes probe faces, logs ++ map (referenceLog probe) faces).
Proof.
  induction faces as [|face tl IH]; intros lds logs.
  - simpl. rewrite !app_nil_r. reflexivity.
  - cbn [fold_left]. unfold loadOne at 2, successes, referenceLog.
    cbn [flat_map map]. fold (successes probe tl).
    destruct (probe face) eqn:E; rewrite IH; unfold referenceLog;
      rewrite <- ?app_assoc; reflexivity.
Qed.

Lemma loadAll_eq (probe : KnownFace -> RefOutcome) (faces : list KnownFace) :
  loadAll probe faces = (successes probe faces, map (referenceLog probe) faces).
Proof. unfold loadAll. rewrite loadOne_fold. reflexivity. Qed.

Lemma successes_In (probe : KnownFace -> RefOutcome) (faces : list KnownFace)
  (ld : LabeledFaceDescriptors) :
  In ld (successes probe faces) <->
  exists face d, In face faces /\ probe face = RefFace d /\
                 ld = mkLabeled (kf_id face) d.
Proof.
  unfold successes. rewrite in_flat_map. split.
  - intros (face & Hin & Hld). exists face.
    destruct (probe face) as [| |d]; try contradiction.
    exists d. destruct Hld as [<- | []]. auto.
  - intros (face & d & Hin & Hp & ->). exists face. split; [exact Hin|].
    rewrite Hp. left. reflexivity.
Qed.

(** [loadReferenceFaces] in closed form. *)
Lemma loadReferenceFaces_eq (faces : list KnownFace)
  (probe : KnownFace -> RefOutcome) (faceMatcher : option FaceMatcher) :
  loadReferenceFaces faces probe faceMatcher =
  match successes probe faces with
  | [] =>
      mkLoad false faceMatcher
        (map (referenceLog probe) faces ++
         [ConsoleWarn "No reference faces could be loaded. Face recognition will be limited to detection only."])
  | _ :: _ =>
      mkLoad true (Some (mkMatcher (successes probe faces) (6 # 10)))
        (map (referenceLog probe) faces)
  end.
Proof.
  unfold loadReferenceFaces. rewrite loadAll_eq.
  destruct (successes probe faces); reflexivity.
Qed.

(** Identities with distinct ids are told apart by their id. *)
Lemma kf_id_injective (faces : list KnownFace) :
  NoDup (map kf_id faces) ->
  forall a b, In a faces -> In b faces -> kf_id a = kf_id b -> a = b.
Proof.
  induction faces as [|f tl IH]; intros Hnd a b Ha Hb Heq; [contradiction|].
  cbn [map] in Hnd. inversion Hnd as [|? ? Hnotin Hnd']; subst.
  destruct Ha as [-> | Ha]; destruct Hb as [-> | Hb].
  - reflexivity.
  - exfalso. apply Hnotin. rewrite Heq. apply in_map. exact Hb.
  - exfalso. apply Hnotin. rewrite <- Heq. apply in_map. exact Ha.
  - apply IH; assumption.
Qed.

(** C7.  For every reference table and every outcome of processing its
    images: the descriptors collected are exactly those of the identities
    whose image gave one, in table order, whatever happened to the others.
    An identity whose processing threw is logged as an error, one without
    a face as a warning, and (ids being distinct) its id labels no
    collected descriptor; and as soon as one identity succeeds the call
    returns true with a matcher over all the successful ones. *)
Theorem C7_reference_failure_is_local :
  forall (faces : list KnownFace) (probe : KnownFace -> RefOutcome)
         (faceMatcher : option FaceMatcher),
    let refs := loadReferenceFaces faces probe faceMatcher in
    let lds := successes probe faces in
    fst (loadAll probe faces) = lds /\
    (forall ld, In ld lds <->
       exists face d, In face faces /\ probe face = RefFace d /\
                      ld = mkLabeled (kf_id face) d) /\
    (forall face, In face faces -> probe face = RefThrew ->
       In (ConsoleError ("Error processing reference face for " +++
                         kf_name face +++ ":")) (lr_console refs)) /\
    (forall face, In face faces -> probe face = RefNoFace ->
       In (ConsoleWarn ("No face detected in reference image for: " +++
                        kf_name face)) (lr_console refs)) /\
    (forall face, NoDup (map kf_id faces) -> In face faces ->
       probe face = RefThrew \/ probe face = RefNoFace ->
       ~ In (kf_id face) (map label lds)) /\
    (forall face d, In face faces -> probe face = RefFace d ->
       lr_ok refs = true /\
       lr_matcher refs = Some (mkMatcher lds (6 # 10)) /\
       In (mkLabeled (kf_id face) d) lds).
Proof.
  intros faces probe faceMatcher refs lds.
  assert (Hlog : forall face, In face faces ->
                   In (referenceLog probe face) (lr_console refs)).
  { intros face Hin. unfold refs. rewrite loadReferenceFaces_eq.
    destruct (successes probe faces); cbn [lr_console];
      [apply in_or_app; left|]; apply in_map; exact Hin. }
  split; [rewrite loadAll_eq; reflexivity|].
  split; [intro ld; apply successes_In|].
  split; [|split; [|split]].
  - intros face Hin Hp. specialize (Hlog face Hin).
    unfold referenceLog in Hlog. rewrite Hp in Hlog. exact Hlog.
  - intros face Hin Hp. specialize (Hlog face Hin).
    unfold referenceLog in Hlog. rewrite Hp in Hlog. exact Hlog.
  - intros face Hnd Hin Hfail Hlabel. apply in_map_iff in Hlabel.
    destruct Hlabel as (ld & Hl & Hld). apply successes_In in Hld.
    destruct Hld as (face' & d & Hin' & Hp' & ->). cbn [label] in Hl.
    assert (face' = face) by (apply (kf_id_injective faces Hnd); assumption).
    subst face'. rewrite Hp' in Hfail. destruct Hfail; discriminate.
  - intros face d Hin Hp.
    assert (Hld : In (mkLabeled (kf_id face) d) lds).
    { apply successes_In. exists face, d. auto. }
    unfold refs. rewrite loadReferenceFaces_eq. fold lds.
    destruct lds; [contradiction|]. repeat split. exact Hld.
Qed.

(** The image of "ashal" cannot be fetched and the one of "tom-cruise"
    shows no face: both are logged, and the matcher is built from the
    three remaining identities. *)
Lemma C7_reference_failure_is_local_witness :
  In (ConsoleError "Error processing reference face for ASHAL:")
     (lr_console (loadReferenceFaces knownFaces sampleProbe None)) /\
  In (ConsoleWarn "No face detected in reference image for: Tom Cruise")
     (lr_console (loadReferenceFaces knownFaces sampleProbe None)) /\
  ~ In "ashal" (map label (successes sampleProbe knownFaces)) /\
  lr_ok (loadReferenceFaces knownFaces sampleProbe None) = true /\
  lr_matcher (loadReferenceFaces knownFaces sampleProbe None) =
    Some (mkMatcher (successes sampleProbe knownFaces) (6 # 10)) /\
  In (mkLabeled "taylor-swift" [1]) (successes sampleProbe knownFaces).
Proof.
  pose proof (C7_reference_failure_is_local knownFaces sampleProbe None) as H.
  cbv zeta in H. destruct H as (_ & _ & Hthrew & Hnone & Hout & Hface).
  split.
  - apply (Hthrew (nth 0 knownFaces (mkKnown EmptyString EmptyString EmptyString kc_user)));
      [left; reflexivity | reflexivity].
  - split.
    + apply (Hnone (nth 1 knownFaces (mkKnown EmptyString EmptyString EmptyString kc_user)));
        [right; left; reflexivity | reflexivity].
    + split.
      * assert (Hnd : NoDup (map kf_id knownFaces))
          by (repeat constructor; cbn; intuition discriminate).
        exact (Hout (nth 0 knownFaces (mkKnown EmptyString EmptyString EmptyString kc_user)) Hnd
                 (or_introl eq_refl) (or_introl eq_refl)).
      * apply (Hface (nth 2 knownFaces (mkKnown EmptyString EmptyString EmptyString kc_user)) [1]);
          [right; right; left; reflexivity | reflexivity].
Defined.

(** ** C4: no reference face could be loaded *)

(** C4, as the code has it.  When no reference image gives a descriptor,
    [loadReferenceFaces] writes the warning that recognition will be
    limited to detection only, leaves the matcher as it was and returns
    false, the value it also returns on failure.  [loadModels] takes that
    value for a failure and shows the error notification, never the
    "ready" one.  Afterwards, with no matcher, [recognizeFaces] reports
    each detected face as "Face Detected" of category unknown, without a
    score. *)
Theorem C4_empty_reference_set :
  forall (probe : KnownFace -> RefOutcome) (faceMatcher : option FaceMatcher)
         (c : Component),
    (forall face d, In face knownFaces -> probe face <> RefFace d) ->
    let refs := loadReferenceFaces knownFaces probe faceMatcher in
    lr_ok refs = false /\
    lr_matcher refs = faceMatcher /\
    last (lr_console refs) (ConsoleLog EmptyString) =
      ConsoleWarn "No reference faces could be loaded. Face recognition will be limited to detection only." /\
    loadModels true probe faceMatcher c =
      (emit [ShowToast (ToastInfo "Loading face recognition models...");
             ShowToast (ToastError "Failed to load face recognition models")]
         (setIsModelLoading false c),
       faceMatcher) /\
    (forall (dist : Descriptor -> Descriptor -> Q)
            (detections : list Detection) (full : Outcome (list DetectionWithDescriptor)),
        recognizeFaces dist knownFaces None (mkFrame (Returned detections) full) =
          map basicFace detections /\
        Forall (fun f => name f = "Face Detected" /\ category f = unknown /\
                         score f = None)
          (map basicFace detections)).
Proof.
  intros probe faceMatcher c Hnone refs.
  assert (Hempty : successes probe knownFaces = []).
  { destruct (successes probe knownFaces) as [|ld tl] eqn:E; [reflexivity|].
    assert (Hin : In ld (successes probe knownFaces)) by (rewrite E; left; reflexivity).
    apply successes_In in Hin. destruct Hin as (face & d & Hin & Hp & _).
    exfalso. exact (Hnone face d Hin Hp). }
  assert (Hrefs : refs =
            mkLoad false faceMatcher
              (map (referenceLog probe) knownFaces ++
               [ConsoleWarn "No reference faces could be loaded. Face recognition will be limited to detection only."])).
  { unfold refs. rewrite loadReferenceFaces_eq, Hempty. reflexivity. }
  split; [rewrite Hrefs; reflexivity|].
  split; [rewrite Hrefs; reflexivity|].
  split; [rewrite Hrefs; cbn [lr_console]; apply last_last|].
  split.
  - unfold loadModels. fold refs. rewrite Hrefs. cbn [lr_ok lr_matcher].
    destruct c. unfold emit, setIsModelLoading. cbn.
    rewrite <- app_assoc. reflexivity.
  - intros dist detections full. split; [reflexivity|].
    apply Forall_forall. intros f Hin. apply in_map_iff in Hin.
    destruct Hin as (d & <- & _). repeat split.
Qed.

(** No reference image shows a face: the page reports a failure. *)
Lemma C4_empty_reference_set_witness :
  lr_ok (loadReferenceFaces knownFaces emptyProbe None) = false /\
  effects (fst (loadModels true emptyProbe None initialComponent)) =
    [ShowToast (ToastInfo "Loading face recognition models...");
     ShowToast (ToastError "Failed to load face recognition models")].
Proof.
  assert (Hnone : forall face d, In face knownFaces -> emptyProbe face <> RefFace d)
    by (intros face d _; discriminate).
  pose proof (C4_empty_reference_set emptyProbe None initialComponent Hnone) as H.
  cbv zeta in H. destruct H as (Hok & _ & _ & Hload & _).
  split; [exact Hok|]. rewrite Hload. reflexivity.
Defined.

(** C4 fails as stated: with no face in any reference image the page does
    report a load error, the same notification as when the models cannot
    be loaded at all, and never says that recognition is ready. *)
Lemma C4_counterexample :
  fst (loadModels true emptyProbe None initialComponent) =
    fst (loadModels false emptyProbe None initialComponent) /\
  In (ShowToast (ToastError "Failed to load face recognition models"))
     (effects (fst (loadModels true emptyProbe None initialComponent))) /\
  ~ In (ShowToast (ToastSuccess "Face recognition ready!"))
       (effects (fst (loadModels true emptyProbe None initialComponent))).
Proof.
  split; [reflexivity|]. split.
  - right. left. reflexivity.
  - intros [H | [H | []]]; discriminate.
Qed.


(** * Further properties of the code *)

(** ** The life cycle of camera and timer *)

(** No event breaks the tie between [isStarted] and the timer. *)
Lemma lifecycleOk_step (w : World) (e : Event) :
  lifecycleOk (comp w) -> lifecycleOk (comp (step w e)).
Proof.
  destruct w as [c aS aP tS fl]. unfold lifecycleOk. cbn [comp]. intro H.
  destruct e as [|k granted|k played handle| |k rf now ts| |v];
    unfold step; cbn [comp awaitingStream awaitingPlay timerSees inflight].
  - destruct (isModelLoading c); [exact H|].
    destruct (isStarted c) eqn:Est; cbn [comp]; [|rewrite Est; exact H].
    pose proof (stopCamera_fields c) as Hs. cbv zeta in Hs.
    destruct Hs as (Hst & _ & Hiv & _). rewrite Hst, Hiv.
    split; [discriminate | intro Hn; exfalso; apply Hn; reflexivity].
  - destruct (pick k aS) as [[seen rest]|]; [|exact H].
    unfold startCamera_stream.
    destruct granted; [destruct (videoRef c)|]; cbn; exact H.
  - destruct (pick k aP) as [[seen rest]|]; [|exact H].
    unfold startCamera_play, startDetectionLoop, clearDetectionInterval.
    destruct c as [d st mu ml cf fh iv ls vr cr so cx ef]. cbn in *.
    destruct played; [|exact H].
    destruct iv; cbn; split; intros; [discriminate | reflexivity
                                     | discriminate | reflexivity].
  - destruct (detectionIntervalRef c) eqn:Ei;
      [|cbn [comp]; rewrite Ei; exact H].
    unfold detectFaces_begin.
    destruct (negb (videoRef c) || negb (canvasRef c) || negb (seenStarted tS));
      [cbn [comp]; rewrite Ei; exact H|].
    destruct (negb (context2d c)); cbn; rewrite Ei; exact H.
  - destruct (pick k fl) as [[seen rest]|]; [|exact H]. cbn [comp].
    pose proof (detectFaces_settle_fields seen rf now ts c) as Hf.
    cbv zeta in Hf. destruct Hf as (_ & _ & _ & Hs & Hi & _).
    rewrite Hs, Hi. exact H.
  - cbn. exact H.
  - cbn. exact H.
Qed.

Lemma lifecycleOk_run (es : list Event) :
  forall w, lifecycleOk (comp w) -> lifecycleOk (comp (run w es)).
Proof.
  induction es as [|e es IH]; intros w Hw; [exact Hw|].
  apply (IH (step w e)). apply lifecycleOk_step. exact Hw.
Qed.

(** X1.  From the mounted page on, whatever the order of clicks, camera
    and [play()] outcomes, ticks, late results and settings changes: the
    detection timer is set exactly while the component is started.  The
    stream is not tied to the two: a call of [startCamera] whose [play()]
    is rejected leaves the stream attached and changes neither [isStarted]
    nor the timer. *)
Theorem timer_follows_isStarted :
  (forall es : list Event,
      let c := comp (run initialWorld es) in
      isStarted c = true <-> exists h, detectionIntervalRef c = Some h) /\
  (forall (handle : nat) (c : Component),
      videoRef c = true ->
      let c' := startCamera true false handle c in
      srcObject c' = true /\ isStarted c' = isStarted c /\
      detectionIntervalRef c' = detectionIntervalRef c).
Proof.
  split.
  - intros es c.
    assert (H : lifecycleOk c).
    { apply lifecycleOk_run. unfold lifecycleOk. cbn.
      split; [discriminate | intro Hn; exfalso; apply Hn; reflexivity]. }
    unfold lifecycleOk in H. rewrite H.
    destruct (detectionIntervalRef c) as [h|]; split.
    + intros _. exists h. reflexivity.
    + intros _. discriminate.
    + intro Hn. exfalso. apply Hn. reflexivity.
    + intros [h Hh]. discriminate Hh.
  - intros handle c Hv. cbv zeta.
    unfold startCamera, startCamera_stream. rewrite Hv.
    unfold startCamera_play. cbn. repeat split.
Qed.

(** X2.  From the mounted page on, whatever the events: the callback of
    the timer calls a [detectFaces] made by a render that saw [isStarted]
    false, so a tick returns at the guard and changes nothing, also while
    the camera is started; no frame has been painted, nothing was spoken
    and the history is empty. *)
Theorem ticks_return_at_the_guard :
  forall es : list Event,
    let w := run initialWorld es in
    seenStarted (timerSees w) = false /\
    step w EvTick = w /\
    painted (effects (comp w)) = [] /\
    spokenTexts (effects (comp w)) = [] /\
    faceHistory (comp w) = [].
Proof.
  intros es w.
  destruct (neverDetected_run es initialWorld neverDetected_initial)
    as (_ & _ & Ht & _ & _ & Hh & Hpa & Hsp).
  fold w in Ht, Hh, Hpa, Hsp.
  split; [exact Ht|]. split.
  - unfold step. rewrite (detectFaces_begin_stale (timerSees w) (comp w) Ht).
    destruct (detectionIntervalRef (comp w)); reflexivity.
  - split; [exact Hpa|]. split; [exact Hsp | exact Hh].
Qed.

(** ** Timers *)

Lemma clearedHandles_app (a b : list Effect) :
  clearedHandles (a ++ b) = clearedHandles a ++ clearedHandles b.
Proof.
  induction a as [|e a IH]; [reflexivity|].
  destruct e; simpl; rewrite IH; reflexivity.
Qed.

Lemma clearedHandles_Speak (fs : list RecognizedFace) :
  clearedHandles (map (fun f => Speak (utteranceText f)) fs) = [].
Proof.
  induction fs as [|f fs IH]; [reflexivity|]. simpl. exact IH.
Qed.

(** One event: the handles cleared so far and the handle held account for
    the handles handed out. *)
Lemma timers_step (w : World) (e : Event) :
  clearedHandles (effects (comp (step w e))) ++ liveHandle (comp (step w e)) =
    (clearedHandles (effects (comp w)) ++ liveHandle (comp w)) ++ handlesSet w [e].
Proof.
  destruct w as [c aS aP tS fl].
  destruct e as [|k granted|k played handle| |k rf now ts| |v];
    unfold step; cbn [handlesSet comp awaitingStream awaitingPlay timerSees inflight];
    rewrite ?app_nil_r.
  - destruct (isModelLoading c); [reflexivity|].
    destruct (isStarted c); cbn [comp]; [|reflexivity].
    destruct c as [d st mu ml cf fh iv ls vr cr so cx ef].
    unfold stopCamera, clearDetectionInterval, liveHandle. cbn.
    destruct (vr && so); destruct iv; cbn;
      rewrite ?clearedHandles_app; cbn; rewrite ?clearedHandles_app; cbn;
      rewrite ?clearedHandles_app; cbn; rewrite ?app_nil_r; reflexivity.
  - destruct (pick k aS) as [[seen rest]|]; [|reflexivity].
    unfold startCamera_stream, liveHandle.
    destruct granted; [destruct (videoRef c)|]; cbn;
      rewrite ?clearedHandles_app; cbn; rewrite ?app_nil_r; reflexivity.
  - destruct (pick k aP) as [[seen rest]|].
    + destruct c as [d st mu ml cf fh iv ls vr cr so cx ef].
      unfold startCamera_play, startDetectionLoop, clearDetectionInterval,
        liveHandle.
      destruct played; [destruct iv|]; cbn;
        rewrite ?clearedHandles_app; cbn; rewrite ?clearedHandles_app; cbn;
        rewrite ?app_nil_r, <- ?app_assoc; reflexivity.
    + destruct played; cbn [comp]; rewrite app_nil_r; reflexivity.
  - destruct (detectionIntervalRef c) eqn:Ei; [|reflexivity].
    unfold detectFaces_begin.
    destruct (negb (videoRef c) || negb (canvasRef c) || negb (seenStarted tS));
      [reflexivity|].
    destruct (negb (context2d c)); [reflexivity|].
    unfold liveHandle. cbn. rewrite Ei, clearedHandles_app. cbn.
    rewrite app_nil_r. reflexivity.
  - destruct (pick k fl) as [[seen rest]|]; [|reflexivity]. cbn [comp].
    pose proof (detectFaces_settle_fields seen rf now ts c) as H.
    cbv zeta in H. destruct H as (_ & _ & _ & _ & Hi & He).
    unfold liveHandle. rewrite Hi, He, clearedHandles_app. cbn [clearedHandles].
    rewrite clearedHandles_Speak, app_nil_r. reflexivity.
  - unfold toggleMute, liveHandle. cbn.
    rewrite clearedHandles_app. cbn. rewrite app_nil_r. reflexivity.
  - reflexivity.
Qed.

Lemma timers_run (es : list Event) :
  forall w : World,
    clearedHandles (effects (comp (run w es))) ++ liveHandle (comp (run w es)) =
      (clearedHandles (effects (comp w)) ++ liveHandle (comp w)) ++ handlesSet w es.
Proof.
  induction es as [|e es IH]; intro w.
  - cbn. rewrite app_nil_r. reflexivity.
  - change (run w (e :: es)) with (run (step w e) es).
    rewrite (IH (step w e)), timers_step.
    cbn [handlesSet]. rewrite app_nil_r, <- app_assoc. reflexivity.
Qed.

(** X3.  From the mounted page on, after any events: the timer handles that
    were cleared, in order, followed by the handle the component still
    holds, are exactly the handles [setInterval] handed out, in order.  So
    every timer but the current one has been cleared, once, and the
    clean-up on unmount clears the last one. *)
Theorem timers_never_leak :
  forall es : list Event,
    let c := comp (run initialWorld es) in
    clearedHandles (effects c) ++ liveHandle c = handlesSet initialWorld es /\
    clearedHandles (effects (unmountCleanup c)) = handlesSet initialWorld es.
Proof.
  intros es c.
  assert (H : clearedHandles (effects c) ++ liveHandle c =
              handlesSet initialWorld es).
  { unfold c. rewrite (timers_run es initialWorld). reflexivity. }
  split; [exact H|]. rewrite <- H.
  unfold unmountCleanup, clearDetectionInterval, liveHandle.
  destruct c as [d st mu ml cf fh iv ls vr cr so cx ef]. cbn.
  destruct (vr && so); destruct iv; cbn;
    rewrite ?clearedHandles_app; cbn; rewrite ?clearedHandles_app; cbn;
    rewrite ?app_nil_r; reflexivity.
Qed.

(** X4.  Stopping a camera that is already stopped only shows the toast again:
    no track is stopped and no timer cleared a second time, and the state
    is the one the first stop left. *)
Theorem stopCamera_twice :
  forall c : Component,
    stopCamera (stopCamera c) =
      emit [ShowToast (ToastInfo "Camera stopped")] (stopCamera c).
Proof.
  intro c. destruct c as [d st mu ml cf fh iv ls vr cr so cx ef].
  destruct vr; destruct so; destruct iv; vm_compute; reflexivity.
Qed.

(** ** Spoken alerts over several cycles *)

Lemma runCycles_cons (c : Component) (cy : Cycle) (cys : list Cycle) :
  runCycles c (cy :: cys) = runCycles (runCycle c cy) cys.
Proof. reflexivity. Qed.

(** X5.  While audio is muted, detection cycles go on rendering, one
    [drawFaces] call each, but none of them speaks and the last-spoken
    cell stays as it was: what was seen while muted does not delay any
    later announcement. *)
Theorem muted_cycles_are_silent :
  forall (cycles : list Cycle) (c : Component),
    isMuted c = true ->
    let c' := runCycles c cycles in
    isMuted c' = true /\
    spokenTexts (effects c') = spokenTexts (effects c) /\
    lastSpokenRef c' = lastSpokenRef c /\
    List.length (drawnFaces (effects c')) =
      (List.length (drawnFaces (effects c)) + List.length cycles)%nat.
Proof.
  induction cycles as [|cy cys IH]; intros c Hm; cbv zeta.
  - cbn. repeat split; auto.
  - rewrite runCycles_cons.
    pose proof (detectFaces_resume_fields (cy_recognized cy) (cy_now cy)
                  (cy_timestamp cy) c) as H.
    cbv zeta in H. fold (runCycle c cy) in H. rewrite Hm in H.
    destruct H as (_ & _ & Hm1 & _ & He & Hl & _).
    destruct (IH (runCycle c cy) Hm1) as (Hm' & Hs' & Hl' & Hd').
    repeat split.
    + exact Hm'.
    + rewrite Hs', He, spokenTexts_app. cbn. apply app_nil_r.
    + rewrite Hl'. exact Hl.
    + rewrite Hd', He, drawnFaces_app. cbn. rewrite length_app. cbn. lia.
Qed.

Lemma muted_cycles_are_silent_witness :
  spokenTexts (effects (runCycles (setIsMuted negb initialComponent)
                          (map sampleCycle (seq 0 3)))) = [] /\
  List.length (drawnFaces (effects (runCycles (setIsMuted negb initialComponent)
                                      (map sampleCycle (seq 0 3))))) = 3%nat.
Proof.
  pose proof (muted_cycles_are_silent (map sampleCycle (seq 0 3))
                (setIsMuted negb initialComponent) eq_refl) as H.
  cbv zeta in H. destruct H as (_ & Hs & _ & Hd). split; [exact Hs | exact Hd].
Defined.

(** Faces that all carry the name in the cell, handled before the cell is
    5000 ms old, are all passed over. *)
Lemma alertedFaces_quiet (now : Z) (ls : LastSpoken) (faces : list RecognizedFace) :
  (now - ls_time ls < 5000)%Z ->
  Forall (fun f => name f = ls_label ls) faces ->
  alertedFaces now ls faces = [] /\ cellAfter now ls faces = ls.
Proof.
  intros Ht Hall. induction Hall as [|f tl Hf _ IH]; [split; reflexivity|].
  cbn [alertedFaces cellAfter]. unfold suppressed.
  rewrite Hf, String.eqb_refl. apply Z.ltb_lt in Ht. rewrite Ht. exact IH.
Qed.

(** X6.  The quiet window.  Once the cell holds the name [L] with time [t0], any
    number of cycles that come less than 5000 ms after [t0] and render only
    faces named [L] say nothing and leave the cell at [t0]: a person who
    stays in view is not announced again before 5 s have gone by since the
    announcement. *)
Theorem quiet_window :
  forall (cycles : list Cycle) (c : Component) (L : string) (t0 : Z),
    lastSpokenRef c = mkSpoken L t0 ->
    Forall (fun cy =>
              (cy_now cy - t0 < 5000)%Z /\
              Forall (fun f => name f = L)
                (filterFaces (confidence c) (cy_recognized cy))) cycles ->
    let c' := runCycles c cycles in
    spokenTexts (effects c') = spokenTexts (effects c) /\
    lastSpokenRef c' = mkSpoken L t0.
Proof.
  induction cycles as [|cy cys IH]; intros c L t0 Hcell Hall; cbv zeta.
  - cbn. split; [reflexivity | exact Hcell].
  - inversion Hall as [|? ? (Ht & Hnames) Hall']; subst.
    rewrite runCycles_cons.
    pose proof (detectFaces_resume_fields (cy_recognized cy) (cy_now cy)
                  (cy_timestamp cy) c) as H.
    cbv zeta in H. fold (runCycle c cy) in H.
    destruct H as (_ & Hc1 & _ & _ & He & Hl & _).
    destruct (alertedFaces_quiet (cy_now cy) (lastSpokenRef c)
                (filterFaces (confidence c) (cy_recognized cy)))
      as (Hnone & Hkeep).
    { rewrite Hcell. exact Ht. }
    { rewrite Hcell. exact Hnames. }
    rewrite Hnone, Hkeep in *.
    assert (He' : spokenTexts (effects (runCycle c cy)) = spokenTexts (effects c)).
    { rewrite He, spokenTexts_app. cbn. destruct (isMuted c); cbn; apply app_nil_r. }
    assert (Hl' : lastSpokenRef (runCycle c cy) = mkSpoken L t0).
    { rewrite Hl. destruct (isMuted c); exact Hcell. }
    rewrite <- Hc1 in Hall'.
    destruct (IH (runCycle c cy) L t0 Hl' Hall') as (Hs & Hcell').
    split; [rewrite Hs; exact He' | exact Hcell'].
Qed.

(** ASHAL was announced at 1000000 and stays alone in view (the stranger
    is below the threshold) for eight more cycles 500 ms apart: silence. *)
Lemma quiet_window_witness :
  spokenTexts
    (effects (runCycles (handleAudioAlerts 1000000 [ashalFace] initialComponent)
                (map sampleCycle (seq 1 8))))
  = ["Hello ASHAL, welcome back!"].
Proof.
  assert (Hall : Forall (fun cy =>
              (cy_now cy - 1000000 < 5000)%Z /\
              Forall (fun f => name f = "ASHAL")
                (filterFaces
                   (confidence (handleAudioAlerts 1000000 [ashalFace] initialComponent))
                   (cy_recognized cy))) (map sampleCycle (seq 1 8))).
  { repeat constructor. }
  exact (proj1 (quiet_window (map sampleCycle (seq 1 8))
                  (handleAudioAlerts 1000000 [ashalFace] initialComponent)
                  "ASHAL" 1000000%Z eq_refl Hall)).
Defined.

(** The first face announced was not suppressed by the cell. *)
Lemma alertedFaces_head (now : Z) (faces : list RecognizedFace) :
  forall ls f rest,
    alertedFaces now ls faces = f :: rest -> suppressed now ls f = false.
Proof.
  induction faces as [|a tl IH]; intros ls f rest H; [discriminate|].
  cbn [alertedFaces] in H. destruct (suppressed now ls a) eqn:E.
  - eapply IH. exact H.
  - inversion H; subst. exact E.
Qed.

Lemma alertedFaces_noRepeat (now : Z) (faces : list RecognizedFace) :
  forall ls, noRepeat (alertedFaces now ls faces).
Proof.
  induction faces as [|a tl IH]; intro ls; [exact I|].
  cbn [alertedFaces]. destruct (suppressed now ls a); [apply IH|].
  specialize (IH (mkSpoken (name a) now)).
  destruct (alertedFaces now (mkSpoken (name a) now) tl) as [|b rest] eqn:E;
    [exact I|].
  split; [|exact IH].
  apply alertedFaces_head in E. unfold suppressed in E. cbn in E.
  replace (now - now)%Z with 0%Z in E by lia. cbn in E.
  rewrite andb_true_r in E. apply String.eqb_neq in E. exact E.
Qed.

(** X7.  Within one cycle the same name is never announced twice in a row: the
    faces announced by one call of [handleAudioAlerts] are among the faces
    handed to it, there are no more of them than faces, and no two
    neighbours of them carry the same name. *)
Theorem no_name_twice_in_a_row :
  forall (now : Z) (faces : list RecognizedFace) (c : Component),
    exists alerted,
      spokenTexts (effects (handleAudioAlerts now faces c)) =
        spokenTexts (effects c) ++ map utteranceText alerted /\
      incl alerted faces /\
      (List.length alerted <= List.length faces)%nat /\
      noRepeat alerted.
Proof.
  intros now faces c.
  pose proof (handleAudioAlerts_fields now faces c) as H. cbv zeta in H.
  destruct H as (_ & _ & _ & _ & _ & He & _).
  exists (if isMuted c then [] else alertedFaces now (lastSpokenRef c) faces).
  split; [rewrite He, spokenTexts_app, spokenTexts_Speak; reflexivity|].
  destruct (isMuted c).
  - repeat split; [intros ? [] | cbn; lia].
  - repeat split.
    + apply alertedFaces_incl.
    + clear He. generalize (lastSpokenRef c). induction faces as [|a tl IH]; intro ls.
      * cbn. lia.
      * cbn [alertedFaces]. destruct (suppressed now ls a); cbn [List.length].
        -- specialize (IH ls). lia.
        -- specialize (IH (mkSpoken (name a) now)). lia.
    + apply alertedFaces_noRepeat.
Qed.

(** ** The confidence filter at its edges *)

(** X8.  A face without a score, or with the score 0, passes at no threshold,
    not even a negative one; at a threshold of 0 or more the filter is
    exactly "score strictly above the threshold"; and filtering at [t] and
    then at a higher [t'] is filtering at [t'] at once. *)
Theorem filterFaces_edges :
  (forall (t : Q) (face : RecognizedFace),
      score face = None \/ (exists s, score face = Some s /\ s == 0) ->
      passesConfidence t face = false) /\
  (forall (t : Q) (face : RecognizedFace),
      0 <= t ->
      (passesConfidence t face = true <->
       exists s, score face = Some s /\ t < s)) /\
  (forall (t t' : Q) (faces : list RecognizedFace),
      t <= t' ->
      filterFaces t' (filterFaces t faces) = filterFaces t' faces).
Proof.
  split; [|split].
  - intros t face [Hnone | (s & Hs & H0)]; unfold passesConfidence.
    + rewrite Hnone. reflexivity.
    + rewrite Hs. unfold truthy.
      apply Qeq_bool_iff in H0. rewrite H0. reflexivity.
  - intros t face Ht. rewrite passesConfidence_iff. split.
    + intros (s & Hs & _ & Hlt). exists s. auto.
    + intros (s & Hs & Hlt). exists s. repeat split; auto.
      intro H0. rewrite H0 in Hlt. apply (Qlt_not_le _ _ Hlt Ht).
  - intros t t' faces Hle. unfold filterFaces.
    induction faces as [|f tl IH]; [reflexivity|].
    cbn [filter]. destruct (passesConfidence t f) eqn:E.
    + cbn [filter]. rewrite IH. reflexivity.
    + rewrite IH. destruct (passesConfidence t' f) eqn:E'; [|reflexivity].
      rewrite (passesConfidence_mono t t' f Hle E') in E. discriminate.
Qed.

Lemma filterFaces_edges_witness :
  passesConfidence (- (1 # 1)) (mkFace "a" "A" unknown sampleBox (Some 0)) = false /\
  (passesConfidence (1 # 2) ashalFace = true <->
   exists s, score ashalFace = Some s /\ (1 # 2) < s) /\
  filterFaces (1 # 2) (filterFaces (1 # 4) [ashalFace; strangerFace; farFace]) =
    filterFaces (1 # 2) [ashalFace; strangerFace; farFace].
Proof.
  destruct filterFaces_edges as (Hzero & Hpos & Hcomp).
  split; [|split].
  - apply Hzero. right. exists 0. split; reflexivity.
  - apply Hpos. vm_compute. discriminate.
  - apply Hcomp. vm_compute. discriminate.
Defined.

(** ** What [recognizeFaces] returns *)

Lemma copyBox_id (b : Box) : copyBox b = b.
Proof. destruct b. reflexivity. Qed.

Lemma faceOfMatch_box (faces : list KnownFace) (d : DetectionWithDescriptor)
  (bm : FaceMatch) :
  box (faceOfMatch faces d bm) = dd_box d.
Proof.
  unfold faceOfMatch. destruct (findKnown faces (fm_label bm));
    [destruct (negb _)|]; cbn; apply copyBox_id.
Qed.

Lemma matchAll_boxes (dist : Descriptor -> Descriptor -> Q)
  (faces : list KnownFace) (m : FaceMatcher) :
  forall ds fs,
    matchAll dist faces m ds = Some fs ->
    map box fs = map dd_box ds /\
    Forall (fun f => exists s, score f = Some s) fs.
Proof.
  induction ds as [|d tl IH]; intros fs H; cbn [matchAll] in H.
  - inversion H; subst. split; [reflexivity | constructor].
  - destruct (findBestMatch dist m (dd_descriptor d)) as [bm|]; [|discriminate].
    destruct (matchAll dist faces m tl) as [fs'|]; [|discriminate].
    inversion H; subst. destruct (IH fs' eq_refl) as (Hb & Hs). split.
    + cbn [map]. rewrite faceOfMatch_box, Hb. reflexivity.
    + constructor; [|exact Hs]. rewrite faceOfMatch_score. eexists. reflexivity.
Qed.

Lemma basicFace_boxes (ds : list Detection) :
  map box (map basicFace ds) = map det_box ds /\
  Forall (fun f => score f = None) (map basicFace ds).
Proof.
  induction ds as [|d tl (Hb & Hs)]; [split; [reflexivity | constructor]|].
  split.
  - cbn [map]. rewrite Hb. unfold basicFace at 1. cbn. rewrite copyBox_id.
    reflexivity.
  - constructor; [reflexivity | exact Hs].
Qed.

(** X9.  [recognizeFaces] neither invents nor drops a face.  If the plain
    detection throws it returns nothing.  Otherwise it returns one face per
    detection, in order and with the detector's box: either the plain
    detections without any score (the fallback), or, with a matcher, the
    detections of the descriptor pass, each with a score. *)
Theorem recognizeFaces_keeps_the_boxes :
  forall (dist : Descriptor -> Descriptor -> Q) (faces : list KnownFace)
         (faceMatcher : option FaceMatcher) (frame : Frame),
    let out := recognizeFaces dist faces faceMatcher frame in
    match fr_basic frame with
    | Threw => out = []
    | Returned detections =>
        (map box out = map det_box detections /\
         Forall (fun f => score f = None) out) \/
        (exists m ds,
            faceMatcher = Some m /\ fr_full frame = Returned ds /\
            map box out = map dd_box ds /\
            Forall (fun f => exists s, score f = Some s) out)
    end.
Proof.
  intros dist faces faceMatcher frame out. unfold out, recognizeFaces.
  destruct (fr_basic frame) as [detections|]; [|reflexivity].
  destruct faceMatcher as [m|]; [|left; apply basicFace_boxes].
  destruct (fr_full frame) as [ds|] eqn:Ef; [|left; apply basicFace_boxes].
  destruct (matchAll dist faces m ds) as [fs|] eqn:Em;
    [|left; apply basicFace_boxes].
  right. exists m, ds. repeat split; apply (matchAll_boxes dist faces m ds fs Em).
Qed.

Lemma faceOfMatch_provenance (faces : list KnownFace)
  (d : DetectionWithDescriptor) (bm : FaceMatch) :
  anonymousOrKnown faces (faceOfMatch faces d bm).
Proof.
  unfold faceOfMatch.
  destruct (findKnown faces (fm_label bm)) as [k|] eqn:Ek.
  - destruct (fm_label bm =? "unknown")%string eqn:El; cbn [negb].
    + left. cbn. repeat split; [right; reflexivity | eexists; reflexivity].
    + right. exists k. apply String.eqb_neq in El.
      pose proof (findKnown_id faces _ k Ek) as Hid.
      unfold findKnown in Ek. apply find_some in Ek. destruct Ek as [Hin _].
      cbn. repeat split; auto; [congruence | eexists; reflexivity].
  - left. cbn. repeat split; [right; reflexivity | eexists; reflexivity].
Qed.

Lemma matchAll_provenance (dist : Descriptor -> Descriptor -> Q)
  (faces : list KnownFace) (m : FaceMatcher) :
  forall ds fs,
    matchAll dist faces m ds = Some fs -> Forall (anonymousOrKnown faces) fs.
Proof.
  induction ds as [|d tl IH]; intros fs H; cbn [matchAll] in H.
  - inversion H; subst. constructor.
  - destruct (findBestMatch dist m (dd_descriptor d)) as [bm|]; [|discriminate].
    destruct (matchAll dist faces m tl) as [fs'|]; [|discriminate].
    inversion H; subst. constructor; [apply faceOfMatch_provenance | apply IH; reflexivity].
Qed.

Lemma basicFace_provenance (faces : list KnownFace) (ds : list Detection) :
  Forall (anonymousOrKnown faces) (map basicFace ds).
Proof.
  apply Forall_forall. intros f Hin. apply in_map_iff in Hin.
  destruct Hin as (d & <- & _). left. cbn.
  repeat split; [left; reflexivity | eexists; reflexivity].
Qed.

(** Every face the current service returns is anonymous or of the table. *)
Lemma recognizeFaces_provenance (dist : Descriptor -> Descriptor -> Q)
  (faces : list KnownFace) (faceMatcher : option FaceMatcher) (frame : Frame) :
  Forall (anonymousOrKnown faces) (recognizeFaces dist faces faceMatcher frame).
Proof.
  unfold recognizeFaces.
  destruct (fr_basic frame) as [detections|]; [|constructor].
  destruct faceMatcher as [m|]; [|apply basicFace_provenance].
  destruct (fr_full frame) as [ds|]; [|apply basicFace_provenance].
  destruct (matchAll dist faces m ds) as [fs|] eqn:Em;
    [|apply basicFace_provenance].
  apply (matchAll_provenance dist faces m ds fs Em).
Qed.

(** X10.  [recognizeFaces] only names people of the reference table.  Whatever
    the matcher answers and whatever the detector returns, in the current
    service and in the older one, every face returned is either anonymous
    (category unknown, named "Face Detected" or "Unknown", with an id that
    starts with "unknown-") or an identity of the table: id, name and
    category are those of one table entry whose id is not "unknown", and it
    carries a score. *)
Theorem recognizeFaces_names_only_the_table :
  forall (dist : Descriptor -> Descriptor -> Q) (faces : list KnownFace)
         (faceMatcher : option FaceMatcher) (frame : Frame),
    Forall (anonymousOrKnown faces) (recognizeFaces dist faces faceMatcher frame) /\
    Forall (anonymousOrKnown faces) (recognizeFaces_old dist faces faceMatcher frame).
Proof.
  intros dist faces faceMatcher frame. split.
  - apply recognizeFaces_provenance.
  - unfold recognizeFaces_old.
    destruct faceMatcher as [m|]; [|constructor].
    destruct (fr_full frame) as [ds|]; [|constructor].
    destruct (matchAll dist faces m ds) as [fs|] eqn:Em; [|constructor].
    apply (matchAll_provenance dist faces m ds fs Em).
Qed.

(** X11.  The current service extends the older one: whenever the older
    [recognizeFaces] returns at least one face on a frame and the plain
    detection of the current one does not throw, the current one returns
    the very same faces. *)
Theorem recognizeFaces_extends_the_older :
  forall (dist : Descriptor -> Descriptor -> Q) (faces : list KnownFace)
         (faceMatcher : option FaceMatcher) (frame : Frame)
         (detections : list Detection),
    fr_basic frame = Returned detections ->
    recognizeFaces_old dist faces faceMatcher frame <> [] ->
    recognizeFaces dist faces faceMatcher frame =
      recognizeFaces_old dist faces faceMatcher frame.
Proof.
  intros dist faces faceMatcher frame detections Hb Hne.
  unfold recognizeFaces, recognizeFaces_old in *. rewrite Hb.
  destruct faceMatcher as [m|]; [|contradiction].
  destruct (fr_full frame) as [ds|]; [|contradiction].
  destruct (matchAll dist faces m ds) as [fs|]; [reflexivity | contradiction].
Qed.

Lemma recognizeFaces_extends_the_older_witness :
  recognizeFaces lineDistance knownFaces (Some sampleMatcher) (sampleFrame 1) =
    recognizeFaces_old lineDistance knownFaces (Some sampleMatcher) (sampleFrame 1).
Proof.
  apply (recognizeFaces_extends_the_older lineDistance knownFaces
           (Some sampleMatcher) (sampleFrame 1) [mkDet sampleBox "7-x"] eq_refl).
  vm_compute. discriminate.
Defined.

(** ** Loading, from the models to the matcher *)

Lemma successes_labels (probe : KnownFace -> RefOutcome) (faces : list KnownFace) :
  map label (successes probe faces) = map kf_id (filter (gaveFace probe) faces).
Proof.
  unfold successes, gaveFace. induction faces as [|f tl IH]; [reflexivity|].
  cbn [flat_map filter]. destruct (probe f); cbn [app map]; rewrite IH; reflexivity.
Qed.

Lemma successes_nil_iff (probe : KnownFace -> RefOutcome) (faces : list KnownFace) :
  successes probe faces = [] <-> filter (gaveFace probe) faces = [].
Proof.
  split; intro H.
  - pose proof (successes_labels probe faces) as Hl. rewrite H in Hl.
    symmetry in Hl. apply map_eq_nil in Hl. exact Hl.
  - pose proof (successes_labels probe faces) as Hl. rewrite H in Hl.
    apply map_eq_nil in Hl. exact Hl.
Qed.

(** X12.  The outcome of [loadReferenceFaces] in full.  It returns true exactly
    when at least one reference image gave a descriptor.  Then the matcher
    is replaced by one with the 0.6 threshold over a non-empty list whose
    labels are the ids of the identities that gave a descriptor, in table
    order.  Otherwise the matcher the module held before is kept.  The
    console gets one line per identity, and one more when nothing was
    loaded. *)
Theorem loadReferenceFaces_outcome :
  forall (faces : list KnownFace) (probe : KnownFace -> RefOutcome)
         (faceMatcher : option FaceMatcher),
    let refs := loadReferenceFaces faces probe faceMatcher in
    let good := filter (gaveFace probe) faces in
    (lr_ok refs = true <-> good <> []) /\
    (lr_ok refs = true ->
     exists m, lr_matcher refs = Some m /\
               labeledDescriptors m <> [] /\
               distanceThreshold m = (6 # 10) /\
               map label (labeledDescriptors m) = map kf_id good) /\
    (lr_ok refs = false -> lr_matcher refs = faceMatcher) /\
    List.length (lr_console refs) =
      (List.length faces + (if lr_ok refs then 0 else 1))%nat.
Proof.
  intros faces probe faceMatcher refs good.
  unfold refs. rewrite loadReferenceFaces_eq.
  pose proof (successes_labels probe faces) as Hl. fold good in Hl.
  pose proof (successes_nil_iff probe faces) as Hn. fold good in Hn.
  destruct (successes probe faces) as [|ld lds] eqn:E; cbn [lr_ok lr_matcher lr_console].
  - repeat split; try discriminate.
    + intro H. exfalso. apply H. apply Hn. reflexivity.
    + rewrite length_app, length_map. reflexivity.
  - repeat split; try discriminate.
    + intros _ H. apply Hn in H. discriminate.
    + intros _. eexists. repeat split; [discriminate | exact Hl].
    + rewrite length_map. lia.
Qed.

Lemma loadReferenceFaces_outcome_witness :
  lr_ok (loadReferenceFaces knownFaces sampleProbe (Some twinMatcher)) = true /\
  lr_matcher (loadReferenceFaces knownFaces emptyProbe (Some twinMatcher)) =
    Some twinMatcher.
Proof.
  split.
  - apply (proj1 (loadReferenceFaces_outcome knownFaces sampleProbe (Some twinMatcher))).
    vm_compute. discriminate.
  - apply (proj1 (proj2 (proj2 (loadReferenceFaces_outcome knownFaces emptyProbe
                                  (Some twinMatcher))))).
    reflexivity.
Defined.

(** Looking up the id of a table entry gives that entry back, when ids are
    distinct. *)
Lemma findKnown_round_trip (faces : list KnownFace) :
  NoDup (map kf_id faces) ->
  forall k, In k faces -> findKnown faces (kf_id k) = Some k.
Proof.
  intros Hnd k Hin. unfold findKnown.
  induction faces as [|a tl IH]; [contradiction|].
  cbn [find]. destruct (kf_id a =? kf_id k)%string eqn:E.
  - apply String.eqb_eq in E. f_equal.
    apply (kf_id_injective (a :: tl) Hnd); [left; reflexivity | exact Hin | exact E].
  - destruct Hin as [-> | Hin]; [rewrite String.eqb_refl in E; discriminate|].
    apply IH; [|exact Hin]. cbn [map] in Hnd. inversion Hnd; assumption.
Qed.

(** X13.  What the loader writes, the recognizer reads back.  With distinct ids
    in the reference table, every label the loader stores is the id of the
    identity whose image gave the stored descriptor, [recognizeFaces] finds
    exactly that identity for it, and (the label not being "unknown") a
    match carrying the label is returned as that identity, with its name
    and category, the box of the detection and the score one minus the
    distance. *)
Theorem stored_labels_are_read_back :
  forall (faces : list KnownFace) (probe : KnownFace -> RefOutcome),
    NoDup (map kf_id faces) ->
    forall ld, In ld (successes probe faces) ->
    exists face,
      In face faces /\ probe face = RefFace (descriptor ld) /\
      kf_id face = label ld /\
      findKnown faces (label ld) = Some face /\
      (label ld <> "unknown" ->
       forall (d : DetectionWithDescriptor) (distance : Q),
         faceOfMatch faces d (mkMatch (label ld) distance) =
           mkFace (kf_id face) (kf_name face) (category_of (kf_category face))
             (dd_box d) (Some (1 - distance))).
Proof.
  intros faces probe Hnd ld Hin. apply successes_In in Hin.
  destruct Hin as (face & d0 & Hface & Hp & ->). cbn [label descriptor].
  exists face.
  pose proof (findKnown_round_trip faces Hnd face Hface) as Hfind.
  repeat split; auto.
  intros Hlabel d distance. unfold faceOfMatch. cbn [fm_label fm_distance].
  rewrite Hfind. apply String.eqb_neq in Hlabel. rewrite Hlabel. cbn [negb].
  rewrite copyBox_id. reflexivity.
Qed.

Lemma stored_labels_are_read_back_witness :
  exists face,
    In face knownFaces /\ sampleProbe face = RefFace [3] /\
    findKnown knownFaces "leonardo-dicaprio" = Some face.
Proof.
  assert (Hnd : NoDup (map kf_id knownFaces))
    by (repeat constructor; cbn; intuition discriminate).
  destruct (stored_labels_are_read_back knownFaces sampleProbe Hnd
              (mkLabeled "leonardo-dicaprio" [3]))
    as (face & Hin & Hp & _ & Hfind & _).
  { right. left. reflexivity. }
  exists face. repeat split; assumption.
Defined.

(** X14.  The page gets ready exactly when all three networks load and at least
    one reference image gives a descriptor: then "Face recognition ready!"
    is shown and the matcher is built from the images that gave one.  In
    every other case the error notification is shown and the matcher the
    module held is kept.  Either way exactly two notifications are shown
    and the loading flag ends up false. *)
Theorem page_ready_iff :
  forall (ssd landmarks recognition : Outcome unit)
         (probe : KnownFace -> RefOutcome) (faceMatcher : option FaceMatcher)
         (c : Component),
    let modelsLoaded := fst (loadFaceRecognitionModels ssd landmarks recognition) in
    let c' := fst (loadModels modelsLoaded probe faceMatcher c) in
    let m' := snd (loadModels modelsLoaded probe faceMatcher c) in
    let ready :=
      ssd = Returned tt /\ landmarks = Returned tt /\ recognition = Returned tt /\
      successes probe knownFaces <> [] in
    isModelLoading c' = false /\
    (ready ->
     effects c' = effects c ++
       [ShowToast (ToastInfo "Loading face recognition models...");
        ShowToast (ToastSuccess "Face recognition ready!")] /\
     m' = Some (mkMatcher (successes probe knownFaces) (6 # 10))) /\
    (~ ready ->
     effects c' = effects c ++
       [ShowToast (ToastInfo "Loading face recognition models...");
        ShowToast (ToastError "Failed to load face recognition models")] /\
     m' = faceMatcher).
Proof.
  intros ssd landmarks recognition probe faceMatcher c modelsLoaded c' m' ready.
  unfold c', m', modelsLoaded, ready, loadModels.
  rewrite loadReferenceFaces_eq.
  destruct c as [d st mu ml cf fh iv ls vr cr so cx ef].
  destruct ssd as [[]|]; destruct landmarks as [[]|];
    destruct recognition as [[]|]; cbn [loadFaceRecognitionModels fst];
    destruct (successes probe knownFaces) as [|ld lds] eqn:E;
    cbn; rewrite <- ?app_assoc; cbn;
    (split; [reflexivity|]); split; intro H;
    try (split; reflexivity);
    try (exfalso; destruct H as (H1 & H2 & H3 & H4);
         first [discriminate H1 | discriminate H2 | discriminate H3
               | apply H4; reflexivity]);
    try (exfalso; apply H; repeat split; discriminate).
Qed.

Lemma page_ready_iff_witness :
  effects (fst (loadModels
                  (fst (loadFaceRecognitionModels (Returned tt) (Returned tt) (Returned tt)))
                  sampleProbe None initialComponent)) =
    [ShowToast (ToastInfo "Loading face recognition models...");
     ShowToast (ToastSuccess "Face recognition ready!")] /\
  effects (fst (loadModels
                  (fst (loadFaceRecognitionModels (Returned tt) Threw (Returned tt)))
                  sampleProbe None initialComponent)) =
    [ShowToast (ToastInfo "Loading face recognition models...");
     ShowToast (ToastError "Failed to load face recognition models")].
Proof.
  split.
  - apply (proj1 (proj2 (page_ready_iff (Returned tt) (Returned tt) (Returned tt)
                           sampleProbe None initialComponent))).
    repeat split; vm_compute; discriminate.
  - apply (proj2 (proj2 (page_ready_iff (Returned tt) Threw (Returned tt)
                           sampleProbe None initialComponent))).
    intros (_ & H & _). discriminate H.
Defined.

(** ** The older [loadReferenceFaces] *)

Lemma loadLoop_old_no_throw (probe : KnownFace -> RefOutcome) (faces : list KnownFace) :
  Forall (fun f => probe f <> RefThrew) faces ->
  forall acc, loadLoop_old probe faces acc = Returned (acc ++ successes probe faces).
Proof.
  induction 1 as [|f tl Hf _ IH]; intro acc; cbn [loadLoop_old].
  - cbn. rewrite app_nil_r. reflexivity.
  - unfold successes. cbn [flat_map]. fold (successes probe tl).
    destruct (probe f); [contradiction| |]; rewrite IH.
    + reflexivity.
    + rewrite <- app_assoc. reflexivity.
Qed.

Lemma loadLoop_old_throw (probe : KnownFace -> RefOutcome) (faces : list KnownFace) :
  Exists (fun f => probe f = RefThrew) faces ->
  forall acc, loadLoop_old probe faces acc = Threw.
Proof.
  induction faces as [|f tl IH]; intros Hex acc; [inversion Hex|].
  cbn [loadLoop_old]. destruct (probe f) eqn:E; [reflexivity| |];
    inversion Hex as [? ? Hf | ? ? Htl]; subst;
    try (rewrite E in Hf; discriminate); apply IH; exact Htl.
Qed.

(** X15.  In the older snapshot of the service one failing image is fatal: if
    processing any reference image throws, [loadReferenceFaces] returns
    false, logs one error and keeps the matcher the module held, whatever
    the other images give and whatever the library does with an empty
    list.  (The current service builds its matcher from the other images
    all the same.) *)
Theorem older_loader_aborts_on_a_throw :
  forall (emptyMatcher : Outcome FaceMatcher) (faces : list KnownFace)
         (probe : KnownFace -> RefOutcome) (faceMatcher : option FaceMatcher),
    Exists (fun f => probe f = RefThrew) faces ->
    loadReferenceFaces_old emptyMatcher faces probe faceMatcher =
      mkLoad false faceMatcher [ConsoleError "Error loading reference faces:"] /\
    lr_matcher (loadReferenceFaces faces probe faceMatcher) =
      match successes probe faces with
      | [] => faceMatcher
      | _ :: _ => Some (mkMatcher (successes probe faces) (6 # 10))
      end.
Proof.
  intros emptyMatcher faces probe faceMatcher Hex. split.
  - unfold loadReferenceFaces_old. rewrite (loadLoop_old_throw probe faces Hex).
    reflexivity.
  - rewrite loadReferenceFaces_eq. destruct (successes probe faces); reflexivity.
Qed.

Lemma older_loader_aborts_on_a_throw_witness :
  lr_matcher (loadReferenceFaces_old Threw knownFaces sampleProbe None) = None /\
  lr_ok (loadReferenceFaces_old Threw knownFaces sampleProbe None) = false.
Proof.
  assert (Hex : Exists (fun f => sampleProbe f = RefThrew) knownFaces)
    by (left; reflexivity).
  rewrite (proj1 (older_loader_aborts_on_a_throw Threw knownFaces sampleProbe None Hex)).
  split; reflexivity.
Defined.

(** X16.  When no reference image throws and at least one gives a descriptor,
    the older and the current [loadReferenceFaces] return the same value
    and build the same matcher. *)
Theorem loaders_agree_without_throws :
  forall (emptyMatcher : Outcome FaceMatcher) (faces : list KnownFace)
         (probe : KnownFace -> RefOutcome) (faceMatcher : option FaceMatcher),
    Forall (fun f => probe f <> RefThrew) faces ->
    Exists (fun f => gaveFace probe f = true) faces ->
    lr_ok (loadReferenceFaces_old emptyMatcher faces probe faceMatcher) =
      lr_ok (loadReferenceFaces faces probe faceMatcher) /\
    lr_matcher (loadReferenceFaces_old emptyMatcher faces probe faceMatcher) =
      lr_matcher (loadReferenceFaces faces probe faceMatcher).
Proof.
  intros emptyMatcher faces probe faceMatcher Hall Hex.
  unfold loadReferenceFaces_old.
  rewrite (loadLoop_old_no_throw probe faces Hall), loadReferenceFaces_eq.
  cbn [app].
  destruct (successes probe faces) as [|ld lds] eqn:E; [|split; reflexivity].
  exfalso. apply successes_nil_iff in E. apply Exists_exists in Hex.
  destruct Hex as (f & Hin & Hf).
  assert (Hin' : In f (filter (gaveFace probe) faces))
    by (apply filter_In; split; assumption).
  rewrite E in Hin'. contradiction.
Qed.

Lemma loaders_agree_without_throws_witness :
  lr_matcher (loadReferenceFaces_old Threw (firstn 2 knownFaces) twinProbe None) =
    Some twinMatcher.
Proof.
  assert (Hall : Forall (fun f => twinProbe f <> RefThrew) (firstn 2 knownFaces))
    by (repeat constructor; discriminate).
  assert (Hex : Exists (fun f => gaveFace twinProbe f = true) (firstn 2 knownFaces))
    by (left; reflexivity).
  rewrite (proj2 (loaders_agree_without_throws Threw (firstn 2 knownFaces)
                    twinProbe None Hall Hex)).
  reflexivity.
Defined.

(** ** The label painted on a face *)

Lemma mathRound_mono (a b : Q) : a <= b -> (mathRound a <= mathRound b)%Z.
Proof.
  intro H. unfold mathRound. apply Qfloor_resp_le. lra.
Qed.

(** X17.  Every face a detection cycle hands to [drawFaces] is painted with its
    name followed by a percentage (the branch without a percentage is
    never taken for a painted face), and that percentage is never below
    the threshold percentage the settings panel shows; for a score of at
    most 1 it is at most 100. *)
Theorem painted_label_shows_percentage :
  forall (recognizedFaces : list RecognizedFace) (now : Z) (timestamp : string)
         (c : Component) (face : RecognizedFace),
    In face (detections (detectFaces_resume recognizedFaces now timestamp c)) ->
    exists s,
      score face = Some s /\
      faceLabel face =
        name face +++ " (" +++ showInt (mathRound (s * 100)) +++ "%)" /\
      thresholdText (confidence c) =
        showInt (mathRound (confidence c * 100)) +++ "%" /\
      (mathRound (confidence c * 100) <= mathRound (s * 100))%Z /\
      (s <= 1 -> (mathRound (s * 100) <= 100)%Z).
Proof.
  intros recognizedFaces now timestamp c face Hin.
  pose proof (detectFaces_resume_fields recognizedFaces now timestamp c) as H.
  cbv zeta in H. destruct H as (Hd & _). rewrite Hd in Hin.
  unfold filterFaces in Hin. apply filter_In in Hin. destruct Hin as (_ & Hpass).
  pose proof Hpass as Hp. unfold passesConfidence in Hp.
  apply passesConfidence_iff in Hpass. destruct Hpass as (s & Hs & H0 & Hlt).
  exists s. rewrite Hs in Hp. apply andb_true_iff in Hp. destruct Hp as (Htruthy & _).
  split; [exact Hs|]. split; [|split; [reflexivity|split]].
  - unfold faceLabel, confidenceText. rewrite Hs, Htruthy. reflexivity.
  - apply mathRound_mono. lra.
  - intro Hle. apply Z.le_trans with (mathRound 100).
    + apply mathRound_mono. lra.
    + vm_compute. discriminate.
Qed.

Lemma painted_label_shows_percentage_witness :
  exists s,
    score ashalFace = Some s /\
    faceLabel ashalFace = "ASHAL (90%)" /\
    thresholdText (1 # 2) = "50%".
Proof.
  destruct (painted_label_shows_percentage [ashalFace; strangerFace] 1000000
              "10:00:00" initialComponent ashalFace)
    as (s & Hs & _).
  { left. reflexivity. }
  exists s. split; [exact Hs|]. split; vm_compute; reflexivity.
Defined.

(** ** The older component *)

Lemma Detr_handleAudioAlerts_keeps (now : Z) (faces : list Detr.Detection)
  (c : Detr.Component) :
  let c' := Detr.handleAudioAlerts now faces c in
  Detr.detections c' = Detr.detections c /\ Detr.drawn c' = Detr.drawn c /\
  Detr.canvasWidth c' = Detr.canvasWidth c /\
  Detr.canvasHeight c' = Detr.canvasHeight c /\
  Detr.isMuted c' = Detr.isMuted c.
Proof.
  cbv zeta. unfold Detr.handleAudioAlerts.
  destruct (Detr.isMuted c || Nat.eqb (List.length faces) 0); [repeat split|].
  destruct (_ && _); repeat split.
Qed.

Lemma Detr_mapi_spec {A B : Type} (f : nat -> A -> B) (P : A -> B -> Prop)
  (l : list A) :
  (forall i a, In a l -> P a (f i a)) ->
  forall i, Forall2 P l (Detr.mapi f i l).
Proof.
  induction l as [|a l IH]; intros H i; cbn [Detr.mapi]; constructor.
  - apply H. left. reflexivity.
  - apply IH. intros j b Hb. apply H. right. exact Hb.
Qed.

Lemma scaled_in_canvas (w h : Q) (b : Detr.Corners) :
  0 <= w -> 0 <= h -> inUnitSquare b ->
  inCanvas w h
    (Detr.mkCorners (Detr.xmin b * w) (Detr.ymin b * h)
                    (Detr.xmax b * w) (Detr.ymax b * h)).
Proof.
  intros Hw Hh ((H1 & H2) & (H3 & H4) & (H5 & H6) & (H7 & H8)).
  unfold inCanvas. cbn.
  repeat split; try (apply Qmult_le_0_compat; assumption).
  - setoid_replace w with (1 * w) at 2 by ring. apply Qmult_le_compat_r; assumption.
  - setoid_replace h with (1 * h) at 2 by ring. apply Qmult_le_compat_r; assumption.
  - setoid_replace w with (1 * w) at 2 by ring. apply Qmult_le_compat_r; assumption.
  - setoid_replace h with (1 * h) at 2 by ring. apply Qmult_le_compat_r; assumption.
Qed.

(** What a cycle of the older component says and remembers is what its
    [handleAudioAlerts] says and remembers about the persons found. *)
Lemma Detr_resume_alert (results : list Detr.RawDetection) (now alertNow : Z)
  (timestamp : string) (c : Detr.Component) :
  exists faces c1,
    List.length faces =
      List.length (filter (fun d => (Detr.raw_label d =? "person")%string) results) /\
    Detr.spoken c1 = Detr.spoken c /\
    Detr.lastSpokenRef c1 = Detr.lastSpokenRef c /\
    Detr.isMuted c1 = Detr.isMuted c /\
    Detr.spoken (Detr.detectFaces_resume results now alertNow timestamp c) =
      Detr.spoken (Detr.handleAudioAlerts alertNow faces c1) /\
    Detr.lastSpokenRef (Detr.detectFaces_resume results now alertNow timestamp c) =
      Detr.lastSpokenRef (Detr.handleAudioAlerts alertNow faces c1) /\
    Detr.isMuted (Detr.detectFaces_resume results now alertNow timestamp c) =
      Detr.isMuted c.
Proof.
  unfold Detr.detectFaces_resume.
  set (faces := Detr.mapi _ 0 _).
  set (c1 := Detr.mkComponent faces _ _ _ _ _ _ _).
  exists faces, c1.
  pose proof (Detr_handleAudioAlerts_keeps alertNow faces c1) as Hk.
  cbv zeta in Hk. destruct Hk as (_ & _ & _ & _ & Hm).
  split; [apply Detr_mapi_length|].
  repeat split; destruct (Nat.ltb 0 (List.length faces)); try reflexivity;
    cbn [Detr.isMuted]; exact Hm.
Qed.

(** X18.  A cycle of the older component stores and paints exactly the results
    labelled "person", in order: each becomes a "Face" with the detector's
    score and with its box scaled by the canvas size; results with any
    other label are dropped.  When the detector's boxes are relative (in
    the unit square), the painted boxes lie inside the canvas. *)
Theorem older_cycle_renders_the_persons :
  forall (results : list Detr.RawDetection) (now alertNow : Z)
         (timestamp : string) (c : Detr.Component),
    let persons :=
      filter (fun d => String.eqb (Detr.raw_label d) "person") results in
    let c' := Detr.detectFaces_resume results now alertNow timestamp c in
    let w := Detr.canvasWidth c in
    let h := Detr.canvasHeight c in
    Forall2 (fun d f =>
               Detr.label f = "Face" /\ Detr.score f = Detr.raw_score d /\
               Detr.box f =
                 Detr.mkCorners (Detr.xmin (Detr.raw_box d) * w)
                                (Detr.ymin (Detr.raw_box d) * h)
                                (Detr.xmax (Detr.raw_box d) * w)
                                (Detr.ymax (Detr.raw_box d) * h) /\
               detrLabel f =
                 "Face (" +++ showInt (mathRound (Detr.raw_score d * 100)) +++ "%)")
      persons (Detr.detections c') /\
    Detr.drawn c' = Detr.drawn c ++ [Detr.detections c'] /\
    (0 <= w -> 0 <= h ->
     Forall (fun d => inUnitSquare (Detr.raw_box d)) persons ->
     Forall (fun f => inCanvas w h (Detr.box f)) (Detr.detections c')).
Proof.
  intros results now alertNow timestamp c persons c' w h.
  assert (Hdet : Detr.detections c' = Detr.mapi (Detr.toFace c now) 0 persons /\
                 Detr.drawn c' = Detr.drawn c ++ [Detr.detections c']).
  { unfold c', Detr.detectFaces_resume. fold persons.
    set (faces := Detr.mapi _ 0 persons).
    set (c1 := Detr.mkComponent faces _ _ _ _ _ _ _).
    pose proof (Detr_handleAudioAlerts_keeps alertNow faces c1) as Hk.
    cbv zeta in Hk. destruct Hk as (Hd & Hdr & _).
    destruct (Nat.ltb 0 (List.length faces)); cbn [Detr.detections Detr.drawn];
      rewrite Hd, Hdr; split; reflexivity. }
  destruct Hdet as (Hd & Hdr).
  assert (H2 : Forall2 (fun d f =>
               Detr.label f = "Face" /\ Detr.score f = Detr.raw_score d /\
               Detr.box f =
                 Detr.mkCorners (Detr.xmin (Detr.raw_box d) * w)
                                (Detr.ymin (Detr.raw_box d) * h)
                                (Detr.xmax (Detr.raw_box d) * w)
                                (Detr.ymax (Detr.raw_box d) * h) /\
               detrLabel f =
                 "Face (" +++ showInt (mathRound (Detr.raw_score d * 100)) +++ "%)")
            persons (Detr.detections c')).
  { rewrite Hd. apply Detr_mapi_spec. intros i d _. repeat split. }
  split; [exact H2|]. split; [exact Hdr|].
  intros Hw Hh Hunit. clear Hd Hdr.
  induction H2 as [|d f ds fs (_ & _ & Hbox & _) _ IH]; [constructor|].
  inversion Hunit; subst. constructor; [|apply IH; assumption].
  rewrite Hbox. apply scaled_in_canvas; assumption.
Qed.

Lemma older_cycle_renders_the_persons_witness :
  Forall (fun f => inCanvas 1280 720 (Detr.box f))
    (Detr.detections
       (Detr.detectFaces_resume
          [samplePerson; Detr.mkRaw "dog" (9 # 10) (Detr.raw_box samplePerson)]
          1000000 1000000 "10:00:00" detrInitial)) /\
  List.length
    (Detr.detections
       (Detr.detectFaces_resume
          [samplePerson; Detr.mkRaw "dog" (9 # 10) (Detr.raw_box samplePerson)]
          1000000 1000000 "10:00:00" detrInitial)) = 1%nat.
Proof.
  split; [|reflexivity].
  apply (proj2 (proj2 (older_cycle_renders_the_persons
           [samplePerson; Detr.mkRaw "dog" (9 # 10) (Detr.raw_box samplePerson)]
           1000000 1000000 "10:00:00" detrInitial))).
  - vm_compute. discriminate.
  - vm_compute. discriminate.
  - repeat constructor; vm_compute; discriminate.
Defined.

(** X19.  The older component speaks at most once in 5 seconds: after an alert
    at [t0], cycles that come less than 5000 ms later say nothing and keep
    the cell, however many faces they see.  And a cycle that does speak
    says one sentence that counts the persons in view. *)
Theorem older_component_rate_limit :
  (forall (cycles : list DetrCycle) (c : Detr.Component) (t0 : Z),
      Detr.lastSpokenRef c = mkSpoken "Face" t0 ->
      Forall (fun cy => (dc_alertNow cy - t0 < 5000)%Z) cycles ->
      let c' := fold_left runDetrCycle cycles c in
      Detr.spoken c' = Detr.spoken c /\
      Detr.lastSpokenRef c' = mkSpoken "Face" t0) /\
  (forall (c : Detr.Component) (cy : DetrCycle),
      Detr.isMuted c = false ->
      detrPersons cy <> [] ->
      (String.eqb (ls_label (Detr.lastSpokenRef c)) "Face"
       && (dc_alertNow cy - ls_time (Detr.lastSpokenRef c) <? 5000)%Z) = false ->
      let n := List.length (detrPersons cy) in
      Detr.spoken (runDetrCycle c cy) =
        Detr.spoken c ++
          [if Nat.eqb n 1 then "Face detected."
           else Detr.decimal n +++ " faces detected."] /\
      Detr.lastSpokenRef (runDetrCycle c cy) = mkSpoken "Face" (dc_alertNow cy)).
Proof.
  split.
  - induction cycles as [|cy cys IH]; intros c t0 Hcell Hall; cbv zeta.
    + split; [reflexivity | exact Hcell].
    + inversion Hall as [|? ? Ht Hall']; subst. cbn [fold_left].
      destruct (Detr_resume_alert (dc_results cy) (dc_now cy) (dc_alertNow cy)
                  (dc_timestamp cy) c)
        as (faces & c1 & _ & Hs1 & Hl1 & _ & Hs & Hl & _).
      fold (runDetrCycle c cy) in Hs, Hl.
      assert (Hsame : Detr.handleAudioAlerts (dc_alertNow cy) faces c1 = c1).
      { unfold Detr.handleAudioAlerts.
        destruct (Detr.isMuted c1 || Nat.eqb (List.length faces) 0); [reflexivity|].
        rewrite Hl1, Hcell. cbn [ls_label ls_time].
        apply Z.ltb_lt in Ht. rewrite Ht. reflexivity. }
      rewrite Hsame in Hs, Hl.
      destruct (IH (runDetrCycle c cy) t0) as (Hs' & Hl'); [congruence | exact Hall'|].
      split; [congruence | exact Hl'].
  - intros c cy Hm Hne Hfresh n.
    destruct (Detr_resume_alert (dc_results cy) (dc_now cy) (dc_alertNow cy)
                (dc_timestamp cy) c)
      as (faces & c1 & Hlen & Hs1 & Hl1 & Hm1 & Hs & Hl & _).
    fold (runDetrCycle c cy) in Hs, Hl. fold (detrPersons cy) in Hlen. fold n in Hlen.
    assert (Hfaces : faces <> []).
    { intro H. subst faces. cbn in Hlen. unfold n in Hlen.
      destruct (detrPersons cy); [contradiction | discriminate]. }
    pose proof (Detr_handleAudioAlerts_spoken (dc_alertNow cy) faces c1) as Ha.
    rewrite Hm1 in Ha. specialize (Ha Hm Hfaces). cbv zeta in Ha.
    rewrite Hl1, Hfresh, Hlen in Ha. destruct Ha as (Ha & Hb & _).
    rewrite Hs, Hl, Ha, Hb, Hs1. split; reflexivity.
Qed.

Lemma older_component_rate_limit_witness :
  Detr.spoken
    (fold_left runDetrCycle
       (map (fun n => mkDetrCycle [samplePerson] 0 (1000500 + 500 * Z.of_nat n)
                        "10:00:01") (seq 0 8))
       (runDetrCycle detrInitial
          (mkDetrCycle [samplePerson; samplePerson] 0 1000000 "10:00:00")))
  = ["2 faces detected."].
Proof.
  destruct older_component_rate_limit as (Hquiet & Hcount).
  destruct (Hcount detrInitial
              (mkDetrCycle [samplePerson; samplePerson] 0 1000000 "10:00:00")
              eq_refl) as (Hs & Hl); [discriminate | reflexivity |].
  destruct (Hquiet
              (map (fun n => mkDetrCycle [samplePerson] 0 (1000500 + 500 * Z.of_nat n)
                               "10:00:01") (seq 0 8))
              (runDetrCycle detrInitial
                 (mkDetrCycle [samplePerson; samplePerson] 0 1000000 "10:00:00"))
              1000000%Z Hl) as (Hs' & _).
  { repeat constructor. }
  rewrite Hs', Hs. reflexivity.
Defined.

(** ** Who is greeted *)

(** X21.  With the reference table of the repository, ASHAL alone is treated
    specially.  Of the faces [recognizeFaces] returns, the one with id
    "ashal" is greeted by name, crowned and boxed in blue; every other
    face has no crown and no blue box, and is announced as a celebrity by
    name when its category is celebrity and as "Unknown person detected"
    when it is anonymous, the "Face Detected" fallback included. *)
Theorem ashal_alone_is_greeted :
  forall (dist : Descriptor -> Descriptor -> Q) (faceMatcher : option FaceMatcher)
         (frame : Frame) (f : RecognizedFace),
    In f (recognizeFaces dist knownFaces faceMatcher frame) ->
    (id f = "ashal" /\
     utteranceText f = "Hello ASHAL, welcome back!" /\
     hasCrown f = true /\ colorBase f = "rgba(0, 132, 255, ")
    \/
    (id f <> "ashal" /\ hasCrown f = false /\
     colorBase f <> "rgba(0, 132, 255, " /\
     ((category f = celebrity /\
       utteranceText f = "Celebrity detected: " +++ name f) \/
      (category f = unknown /\ utteranceText f = "Unknown person detected"))).
Proof.
  intros dist faceMatcher frame f Hin.
  pose proof (recognizeFaces_provenance dist knownFaces faceMatcher frame)
    as Hall.
  rewrite Forall_forall in Hall. specialize (Hall f Hin).
  destruct Hall as [(Hcat & Hname & stamp & Hid) |
                    (k & Hk & _ & Hid & Hname & Hcat & _)].
  - right. unfold hasCrown, colorBase, utteranceText. rewrite Hcat, Hid.
    destruct Hname as [-> | ->]; cbn; repeat split; try discriminate;
      right; split; reflexivity.
  - unfold hasCrown, colorBase, utteranceText. rewrite Hid, Hname, Hcat.
    cbn in Hk.
    destruct Hk as [<- | [<- | [<- | [<- | [<- | []]]]]]; cbn;
      [left; repeat split | right | right | right | right];
      (repeat split; try discriminate; left; split; reflexivity).
Qed.

Lemma ashal_alone_is_greeted_witness :
  exists f,
    recognizeFaces lineDistance knownFaces (Some sampleMatcher)
      (sampleFrame (1 # 10)) = [f] /\
    id f = "ashal" /\ hasCrown f = true.
Proof.
  eexists. split; [vm_compute; reflexivity|].
  destruct (ashal_alone_is_greeted lineDistance (Some sampleMatcher)
              (sampleFrame (1 # 10))
              (mkFace "ashal" "ASHAL" user sampleBox (Some (9 # 10))))
    as [(Hid & _ & Hcrown & _) | (Hid & _)].
  - vm_compute. left. reflexivity.
  - split; [exact Hid | exact Hcrown].
  - exfalso. apply Hid. reflexivity.
Defined.

(** The camera is started and stopped and started again with a new
    timer; then, on another page, [play()] is rejected. *)
Lemma timer_follows_isStarted_witness :
  (isStarted (comp (run initialWorld
                      [EvClickMain; EvStream 0 true; EvPlay 0 true 1; EvTick;
                       EvClickMain; EvClickMain; EvStream 0 true;
                       EvPlay 0 true 2])) = true /\
   exists h, detectionIntervalRef
               (comp (run initialWorld
                        [EvClickMain; EvStream 0 true; EvPlay 0 true 1; EvTick;
                         EvClickMain; EvClickMain; EvStream 0 true;
                         EvPlay 0 true 2])) = Some h) /\
  (let c := comp (run initialWorld
                    [EvClickMain; EvStream 0 true; EvPlay 0 false 1]) in
   srcObject c = true /\ isStarted c = false /\ detectionIntervalRef c = None) /\
  srcObject (startCamera true false 1 initialComponent) = true.
Proof.
  split; [|split].
  - split; [reflexivity|].
    apply (proj1 timer_follows_isStarted
             [EvClickMain; EvStream 0 true; EvPlay 0 true 1; EvTick;
              EvClickMain; EvClickMain; EvStream 0 true; EvPlay 0 true 2]).
    reflexivity.
  - cbv zeta. repeat split.
  - apply (proj2 timer_follows_isStarted 1%nat initialComponent). reflexivity.
Defined.

(** With the camera started, a tick changes nothing. *)
Lemma ticks_return_at_the_guard_witness :
  let w := run initialWorld [EvClickMain; EvStream 0 true; EvPlay 0 true 1] in
  isStarted (comp w) = true /\
  detectionIntervalRef (comp w) = Some 1%nat /\
  step w EvTick = w.
Proof.
  cbv zeta. split; [reflexivity|]. split; [reflexivity|].
  destruct (ticks_return_at_the_guard
              [EvClickMain; EvStream 0 true; EvPlay 0 true 1])
    as (_ & Htick & _).
  exact Htick.
Defined.
